(** * The bounded, navigable history of [useStateWithHistory]

    A shallow embedding of the hook [useStateWithHistory] of
    [src/CustomHook.js] (lines 119-172) and the properties of its log
    ([historyRef.current]), its cursor ([pointerRef.current]) and its visible
    value (the React state [value]).

    Modelling conventions.
    - The hook instance is a record holding what the closure of the hook
      holds: the React state [value], the two refs and [capacity].
    - Every call of [set], [back], [forward] or [go] is followed by a render
      before the next call, so the [value] read by an updater is the value
      written by the previous call.
    - JavaScript numbers that index the array or bound it are integers
      ([Z]); the cursor is a [Z] because the code can set it to [-1].
    - A [while] loop is run with fuel; running out of fuel is [Diverges]. *)

From stdpp Require Import base option list strings gmap.
From Stdlib Require Import ZArith Lia.

#[local] Open Scope Z_scope.

(** ** JavaScript values *)

Module Js.

(** The values a state can hold.  Objects and arrays are references:
    the address is the identity of the object.  Numbers are the integers
    and [NaN].  Function values are left out: a function handed to [set]
    is an updater (see [History.arg]). *)
Inductive value : Type :=
| Undefined
| Null
| Bool (b : bool)
| Num (n : Z)
| NaN
| Str (s : string)
| Ref (addr : nat).

(** [a === b]: primitives by content, [NaN] equal to nothing, objects by
    identity. *)
Definition strict_eq (a b : value) : bool :=
  match a, b with
  | Undefined, Undefined => true
  | Null, Null => true
  | Bool x, Bool y => bool_decide (x = y)
  | Num x, Num y => x =? y
  | Str x, Str y => bool_decide (x = y)
  | Ref p, Ref q => bool_decide (p = q)
  | _, _ => false
  end.

(** The properties of an object, in insertion order, and the store that
    holds the objects. *)
Definition object : Type := list (string * value).
Definition heap : Type := gmap nat object.

(** Property-wise comparison of two objects with a comparison [eqv] of
    values. *)
Fixpoint props_eq (eqv : value -> value -> bool) (xs ys : object) : bool :=
  match xs, ys with
  | [], [] => true
  | (k, x) :: xs', (l, y) :: ys' =>
      bool_decide (k = l) && eqv x y && props_eq eqv xs' ys'
  | _, _ => false
  end.

(** Value equality as opposed to identity (what lodash's [isEqual],
    imported by the file, computes): two references are equal when they
    are the same object or when the objects they point to have equal
    properties; [NaN] equals itself.  [depth] bounds the nesting that is
    followed. *)
Fixpoint value_eq (depth : nat) (σ : heap) (a b : value) : bool :=
  match a, b with
  | NaN, NaN => true
  | Ref p, Ref q =>
      bool_decide (p = q) ||
      match depth with
      | O => false
      | S d =>
          match σ !! p, σ !! q with
          | Some xs, Some ys => props_eq (value_eq d σ) xs ys
          | _, _ => false
          end
      end
  | _, _ => strict_eq a b
  end.

End Js.

(** ** Outcomes of a call *)

(** The error the specification names for construction.  No path of the
    source constructs it. *)
Inductive error : Type :=
| InvalidConfiguration.

(** A call returns, throws, or never returns. *)
Inductive outcome (A : Type) : Type :=
| Returns (a : A)
| Throws (e : error)
| Diverges.

Arguments Returns {A} a.
Arguments Throws {A} e.
Arguments Diverges {A}.

#[global] Instance outcome_ret : MRet outcome := fun A a => Returns a.
#[global] Instance outcome_bind : MBind outcome :=
  fun A B k m =>
    match m with
    | Returns a => k a
    | Throws e => Throws e
    | Diverges => Diverges
    end.

(** ** Array primitives *)

Module Array.

Definition len (l : list Js.value) : Z := Z.of_nat (length l).

(** [l[i]] for an integer [i]: [undefined] outside the array. *)
Definition get (l : list Js.value) (i : Z) : Js.value :=
  if i <? 0 then Js.Undefined else default Js.Undefined (l !! Z.to_nat i).

(** What [l.splice(start)] leaves in [l]: a negative [start] counts from
    the end, and [start] is clamped to the array. *)
Definition splice (start : Z) (l : list Js.value) : list Js.value :=
  let from :=
    if start <? 0 then Z.max (len l + start) 0 else Z.min start (len l) in
  take (Z.to_nat from) l.

Definition push (l : list Js.value) (v : Js.value) : list Js.value :=
  l ++ [v].

(** [l.shift()] removes the first element; it does nothing to [[]]. *)
Definition shift (l : list Js.value) : list Js.value := drop 1 l.

End Array.

(** ** The hook *)

Module History.
Import Array.

Record hook : Type := Hook {
  value : Js.value;
  historyRef : list Js.value;
  pointerRef : Z;
  capacity : Z
}.

(** [useStateWithHistory(defaultValue, { capacity = 10 } = {})]: the
    option is [None] when the caller gives no capacity. *)
Definition useStateWithHistory (defaultValue : Js.value)
    (opt_capacity : option Z) : outcome hook :=
  let capacity := default 10 opt_capacity in
  let value := defaultValue in
  Returns {| value := value; historyRef := [value]; pointerRef := 0;
             capacity := capacity |}.

(** The argument of [set]: a value, or a function of the current value. *)
Inductive arg : Type :=
| Literal (v : Js.value)
| Updater (f : Js.value -> Js.value).

(** [typeof v === "function" ? v(value) : v] *)
Definition resolve (h : hook) (v : arg) : Js.value :=
  match v with
  | Literal x => x
  | Updater f => f (value h)
  end.

(** [while (history.length > capacity) history.shift()] *)
Fixpoint shift_while (fuel : nat) (capacity : Z) (l : list Js.value)
    : outcome (list Js.value) :=
  match fuel with
  | O => Diverges
  | S fuel' =>
      if len l >? capacity then shift_while fuel' capacity (shift l)
      else Returns l
  end.

(** The log after the truncation and the push of [set], before the
    eviction loop. *)
Definition appended (h : hook) (resolvedValue : Js.value)
    : list Js.value :=
  let kept :=
    if pointerRef h <? len (historyRef h) - 1
    then splice (pointerRef h + 1) (historyRef h)
    else historyRef h in
  push kept resolvedValue.

Definition set (h : hook) (v : arg) : outcome hook :=
  let resolvedValue := resolve h v in
  if negb (Js.strict_eq (get (historyRef h) (pointerRef h)) resolvedValue)
  then
    let pushed := appended h resolvedValue in
    history ← shift_while (S (length pushed)) (capacity h) pushed;
    Returns {| value := resolvedValue; historyRef := history;
               pointerRef := len history - 1; capacity := capacity h |}
  else
    Returns {| value := resolvedValue; historyRef := historyRef h;
               pointerRef := pointerRef h; capacity := capacity h |}.

Definition back (h : hook) : hook :=
  if pointerRef h <=? 0 then h
  else
    let pointer := pointerRef h - 1 in
    {| value := get (historyRef h) pointer; historyRef := historyRef h;
       pointerRef := pointer; capacity := capacity h |}.

Definition forward (h : hook) : hook :=
  if pointerRef h >=? len (historyRef h) - 1 then h
  else
    let pointer := pointerRef h + 1 in
    {| value := get (historyRef h) pointer; historyRef := historyRef h;
       pointerRef := pointer; capacity := capacity h |}.

Definition go (index : Z) (h : hook) : hook :=
  if (index <? 0) || (index >? len (historyRef h) - 1) then h
  else
    {| value := get (historyRef h) index; historyRef := historyRef h;
       pointerRef := index; capacity := capacity h |}.

(** Calls made on a hook, and their sequences. *)
Inductive op : Type :=
| Set_ (v : arg)
| Back
| Forward
| Go (index : Z).

Definition step (h : hook) (o : op) : outcome hook :=
  match o with
  | Set_ v => set h v
  | Back => Returns (back h)
  | Forward => Returns (forward h)
  | Go index => Returns (go index h)
  end.

Fixpoint run (ops : list op) (h : hook) : outcome hook :=
  match ops with
  | [] => Returns h
  | o :: ops' => h' ← step h o; run ops' h'
  end.

(** The calls [back()] and [forward()]. *)
Definition is_nav (o : op) : bool :=
  match o with
  | Back | Forward => true
  | _ => false
  end.

(** The first component of the triple the hook returns: the value the
    consumer sees. *)
Definition currentValue (h : hook) : Js.value := value h.

(** A hook is created and [ops] are called on it, in order. *)
Definition session (defaultValue : Js.value) (opt_capacity : option Z)
    (ops : list op) : outcome hook :=
  h ← useStateWithHistory defaultValue opt_capacity; run ops h.

(** What the eviction loop leaves of the log [pushed] when it ends: the
    entries in excess of [cap] are gone from the front. *)
Definition evicted (cap : Z) (pushed : list Js.value) : list Js.value :=
  drop (Z.to_nat (len pushed - cap)) pushed.

(** The state of a hook whose capacity is at least one: the log holds
    between one and [capacity] entries, the cursor is an index of the log
    and the visible value is the entry under the cursor. *)
Record bounded (h : hook) : Prop := Bounded {
  bounded_capacity : 1 <= capacity h;
  bounded_len : 1 <= len (historyRef h) <= capacity h;
  bounded_pointer : 0 <= pointerRef h < len (historyRef h);
  bounded_value : value h = get (historyRef h) (pointerRef h)
}.

(** The visible value is the entry under the cursor, or the log is empty
    with the cursor before it (what a capacity of zero leads to). *)
Definition coherent (h : hook) : Prop :=
  value h = get (historyRef h) (pointerRef h) \/
  (historyRef h = [] /\ pointerRef h = -1).

End History.

(** ** Data of the examples *)

Module Scenario.
Import History.

(** Two objects that are distinct and hold the same property:
    [{ a: 1 }] at address 1 and [{ a: 1 }] at address 2. *)
Definition two_objects : Js.heap :=
  {[ 1%nat := [("a"%string, Js.Num 1)]; 2%nat := [("a"%string, Js.Num 1)] ]}.

(** The hook after [useStateWithHistory(o)] for the object [o] at
    address 1. *)
Definition object_hook : hook :=
  {| value := Js.Ref 1; historyRef := [Js.Ref 1]; pointerRef := 0;
     capacity := 10 |}.

(** [set(n)] for a number [n]. *)
Definition commit (n : Z) : op := Set_ (Literal (Js.Num n)).

Definition three_commits : list op := [commit 1; commit 2; commit 3].

(** A log of four entries with the cursor on the second. *)
Definition four_entries (a b c d current : Js.value) (cap : Z) : hook :=
  {| value := current; historyRef := [a; b; c; d]; pointerRef := 1;
     capacity := cap |}.

End Scenario.

(** ** Truthiness and decidable equality of values *)

From Stdlib Require Import Ascii.

#[global] Instance value_eq_dec : EqDecision Js.value.
Proof. solve_decision. Defined.

Module Coercion.

(** [ToBoolean]: what [!v] and [if (v)] test. *)
Definition truthy (v : Js.value) : bool :=
  match v with
  | Js.Undefined | Js.Null | Js.NaN => false
  | Js.Bool b => b
  | Js.Num n => negb (n =? 0)
  | Js.Str s => negb (bool_decide (s = EmptyString))
  | Js.Ref _ => true
  end.

(** [v == null]: [v] is [null] or [undefined]. *)
Definition nullish (v : Js.value) : bool :=
  match v with
  | Js.Undefined | Js.Null => true
  | _ => false
  end.

(** [a ?? b] *)
Definition coalesce (a b : Js.value) : Js.value :=
  if nullish a then b else a.

End Coercion.

(** ** [useToggle] (lines 41-48) *)

Module Toggle.
Import Coercion.

(** [toggleValue(value)] applied to the state [currentValue]:
    [typeof value === "boolean" ? value : !currentValue]. *)
Definition toggleValue (value currentValue : Js.value) : Js.value :=
  match value with
  | Js.Bool b => Js.Bool b
  | _ => Js.Bool (negb (truthy currentValue))
  end.

(** The argument is not a boolean: an event object, or nothing. *)
Definition not_boolean (value : Js.value) : Prop :=
  forall b : bool, value <> Js.Bool b.

(** The state after the calls [toggleValue(v)] for the [v] of [values], in
    order. *)
Definition toggles (values : list Js.value) (state : Js.value) : Js.value :=
  foldl (fun current value => toggleValue value current) state values.

End Toggle.

(** ** [useUpdateEffect] (lines 82-91) *)

Module UpdateEffect.

(** One run of the effect with [firstRenderRef.current] as given: the new
    content of the ref, and whether [callback] was called. *)
Definition effect (firstRenderRef : bool) : bool * bool :=
  if firstRenderRef then (false, false) else (firstRenderRef, true).

(** The ref and the number of calls of [callback] after [n] runs of the
    effect, the ref starting at [true]. *)
Fixpoint runs (n : nat) : bool * nat :=
  match n with
  | O => (true, O)
  | S m =>
      let '(ref, calls) := runs m in
      let '(ref', called) := effect ref in
      (ref', if called then S calls else calls)
  end.

End UpdateEffect.

(** ** [useArray] (lines 92-107) *)

Module UseArray.
Import Array.

(** An index argument of [slice] made absolute: a negative one counts from
    the end, and the result is clamped to [0 .. n]. *)
Definition relative (i n : Z) : Z :=
  if i <? 0 then Z.max (n + i) 0 else Z.min i n.

(** [a.slice(start, end)] *)
Definition slice (start end_ : Z) (a : list Js.value) : list Js.value :=
  let from := relative start (len a) in
  let to := relative end_ (len a) in
  take (Z.to_nat (to - from)) (drop (Z.to_nat from) a).

(** The state updates of the hook, as functions of the latest array (each
    is handed to [setArray] as an updater). *)
Definition push (element : Js.value) (a : list Js.value) : list Js.value :=
  a ++ [element].

(** [a.filter(callback)]: the callback is given the element and its
    index. *)
Fixpoint filter_from (index : Z) (callback : Js.value -> Z -> bool)
    (a : list Js.value) : list Js.value :=
  match a with
  | [] => []
  | x :: a' =>
      if callback x index then x :: filter_from (index + 1) callback a'
      else filter_from (index + 1) callback a'
  end.

Definition filter (callback : Js.value -> Z -> bool) (a : list Js.value)
    : list Js.value :=
  filter_from 0 callback a.

Definition update (index : Z) (newElement : Js.value) (a : list Js.value)
    : list Js.value :=
  slice 0 index a ++ [newElement] ++ slice (index + 1) (len a) a.

Definition remove (index : Z) (a : list Js.value) : list Js.value :=
  slice 0 index a ++ slice (index + 1) (len a) a.

Definition clear (a : list Js.value) : list Js.value := [].

End UseArray.

(** ** [usePrevious] (lines 108-118) *)

Module Previous.

Record refs : Type := Refs {
  currentRef : Js.value;
  previousRef : Js.value
}.

(** The refs as [useRef(value)] and [useRef()] create them at the first
    render. *)
Definition mount (value : Js.value) : refs :=
  {| currentRef := value; previousRef := Js.Undefined |}.

(** The body of the hook after the refs are there. *)
Definition render (r : refs) (value : Js.value) : refs :=
  if negb (Js.strict_eq (currentRef r) value)
  then {| currentRef := value; previousRef := currentRef r |}
  else r.

(** The refs after the first render with [value] and the renders with
    [values], in order.  The hook returns [previousRef]. *)
Definition renders (value : Js.value) (values : list Js.value) : refs :=
  foldl render (render (mount value) value) values.

Definition usePrevious (value : Js.value) (values : list Js.value)
    : Js.value :=
  previousRef (renders value values).

(** The latest of [values] that is not [final]; [undefined] when there is
    none. *)
Definition last_other (final : Js.value) (values : list Js.value)
    : Js.value :=
  default Js.Undefined
    (head (base.filter (fun x => x <> final) (reverse values))).

End Previous.

(** ** [useStateWithValidation] (lines 308-323) *)

Module Validation.
Import History.

(** The two states of the hook and the [state] that the memoised
    [onChange] has in its closure. *)
Record hook : Type := Hook {
  state : Js.value;
  isValid : Js.value;
  closure_state : Js.value
}.

Definition useStateWithValidation (validationFunc : Js.value -> Js.value)
    (initialValue : Js.value) : hook :=
  {| state := initialValue; isValid := validationFunc initialValue;
     closure_state := initialValue |}.

(** [onChange(nextState)] and the render that follows.  [onChange] is
    memoised on [[validationFunc]] alone: when the caller hands the same
    function object at every render ([stable]), the closure made at the first
    render is kept, with the [state] of that render; when it hands a new
    function object at every render, the closure is made anew with the
    [state] of that render. *)
Definition onChange (stable : bool) (validationFunc : Js.value -> Js.value)
    (h : hook) (nextState : arg) : hook :=
  let value :=
    match nextState with
    | Literal x => x
    | Updater f => f (closure_state h)
    end in
  {| state := value; isValid := validationFunc value;
     closure_state := if stable then closure_state h else value |}.

Definition changes (stable : bool) (validationFunc : Js.value -> Js.value)
    (nextStates : list arg) (h : hook) : hook :=
  foldl (onChange stable validationFunc) h nextStates.

(** What an updater does to a value, and a literal. *)
Definition apply_arg (nextState : arg) (current : Js.value) : Js.value :=
  match nextState with
  | Literal x => x
  | Updater f => f current
  end.

End Validation.

(** ** [useCopyToClipboard] (lines 357-368) *)

Module Clipboard.

Record hook : Type := Hook {
  value : Js.value;
  success : Js.value
}.

(** [useState()] twice. *)
Definition useCopyToClipboard : hook :=
  {| value := Js.Undefined; success := Js.Undefined |}.

(** [copyToClipboard(text, options)] when [copy(text, options)] returns
    [result]. *)
Definition copyToClipboard (h : hook) (call : Js.value * bool) : hook :=
  let '(text, result) := call in
  {| value := if result then text else value h;
     success := Js.Bool result |}.

Definition copies (calls : list (Js.value * bool)) : hook :=
  foldl copyToClipboard useCopyToClipboard calls.

(** The text of the latest call that succeeded. *)
Definition last_copied (calls : list (Js.value * bool)) : Js.value :=
  default Js.Undefined
    (fst <$> head (base.filter (fun c => snd c = true) (reverse calls))).

End Clipboard.

(** ** [getNestedTranslation] and [useTranslation] (lines 35-38, 389-410) *)

Module Translation.
Import Coercion.

(** What the code reads and does not define: the objects in the store, the
    properties a value has without owning them (those of a prototype, the
    characters and the length of a string), and the exports of
    [./translations] by name ([undefined] for a name that is not
    exported). *)
Record world : Type := World {
  heap : Js.heap;
  inherited : Js.value -> string -> Js.value;
  translations : string -> Js.value
}.

(** The own property [key] of an object. *)
Definition own (props : Js.object) (key : string) : option Js.value :=
  list_find (fun p => fst p = key) props ≫= Some ∘ snd ∘ snd.

(** [obj?.[key]] *)
Definition member (w : world) (obj : Js.value) (key : string) : Js.value :=
  match obj with
  | Js.Undefined | Js.Null => Js.Undefined
  | Js.Ref p =>
      match heap w !! p ≫= fun props => own props key with
      | Some x => x
      | None => inherited w obj key
      end
  | _ => inherited w obj key
  end.

(** [keys.reduce((obj, key) => obj?.[key], translations[language])] *)
Definition getNestedTranslation (w : world) (language : string)
    (keys : list string) : Js.value :=
  foldl (member w) (translations w language) keys.

(** [key.split(".")] *)
Fixpoint split_dot (key : string) : list string :=
  match key with
  | EmptyString => [EmptyString]
  | String c rest =>
      if bool_decide (c = "."%char) then EmptyString :: split_dot rest
      else
        match split_dot rest with
        | [] => [String c EmptyString]
        | first :: others => String c first :: others
        end
  end.

(** [keys.join(".")] *)
Fixpoint join_dot (keys : list string) : string :=
  match keys with
  | [] => EmptyString
  | [k] => k
  | k :: keys' => k +:+ String "."%char (join_dot keys')
  end.

(** [translate(key)] with the states [language] and [fallbackLanguage]. *)
Definition translate (w : world) (language fallbackLanguage key : string)
    : Js.value :=
  let keys := split_dot key in
  coalesce
    (coalesce (getNestedTranslation w language keys)
              (getNestedTranslation w fallbackLanguage keys))
    (Js.Str key).

End Translation.

(** ** [useDebugInformation] (lines 422-448) *)

Module DebugInformation.

(** [o[key]] for a props object [o]: [undefined] when [o] has no such
    property (property names are not those of [Object.prototype]). *)
Definition prop (o : gmap string Js.value) (key : string) : Js.value :=
  default Js.Undefined (o !! key).

(** [Object.keys({ ...props, ...previousProps })]: [previousProps] is the
    ref, whose one property is [current]. *)
Definition propKeys (props : gmap string Js.value) : list string :=
  elements (dom props ∪ {["current"%string]}).

(** One step of the [reduce]. *)
Definition record_change (props previous : gmap string Js.value)
    (obj : gmap string (Js.value * Js.value)) (key : string)
    : gmap string (Js.value * Js.value) :=
  if Js.strict_eq (prop props key) (prop previous key) then obj
  else <[key := (prop previous key, prop props key)]> obj.

(** [changedProps.current] at a render with [props], [previous] being
    [previousProps.current]: each entry holds [previous] and [current]. *)
Definition changedProps (props previous : gmap string Js.value)
    : gmap string (Js.value * Js.value) :=
  foldl (record_change props previous) ∅ (propKeys props).

End DebugInformation.

(** ** Facts about the primitives *)

Section JsFacts.

Lemma strict_eq_eq (a b : Js.value) : Js.strict_eq a b = true -> a = b.
Proof.
  destruct a, b; simpl; try discriminate; try reflexivity;
    intros H; f_equal.
  - by apply bool_decide_eq_true in H.
  - by apply Z.eqb_eq.
  - by apply bool_decide_eq_true in H.
  - by apply bool_decide_eq_true in H.
Qed.

End JsFacts.

Section ArrayFacts.
Import Array.

Implicit Types (l : list Js.value) (v : Js.value).

Lemma len_nonneg l : 0 <= len l.
Proof. unfold len. lia. Qed.

Lemma len_push l v : len (push l v) = len l + 1.
Proof. unfold len, push. rewrite length_app. simpl. lia. Qed.

Lemma len_drop (k : nat) l : len (drop k l) = Z.max 0 (len l - Z.of_nat k).
Proof. unfold len. rewrite length_drop. lia. Qed.

Lemma get_lookup l (i : Z) v :
  0 <= i -> l !! Z.to_nat i = Some v -> get l i = v.
Proof.
  intros Hi Hl. unfold get.
  destruct (Z.ltb_spec i 0) as [?|_]; [lia|]. by rewrite Hl.
Qed.

Lemma lookup_get l (i : Z) :
  0 <= i < len l -> l !! Z.to_nat i = Some (get l i).
Proof.
  intros Hi. unfold get, len in *.
  destruct (Z.ltb_spec i 0) as [?|_]; [lia|].
  destruct (lookup_lt_is_Some_2 l (Z.to_nat i)) as [x Hx]; [lia|].
  by rewrite Hx.
Qed.

(** Inside the array, [splice (i + 1)] keeps the first [i + 1] entries. *)
Lemma splice_in_range l (i : Z) :
  0 <= i + 1 -> splice (i + 1) l = take (Z.to_nat (i + 1)) l.
Proof.
  intros Hi. unfold splice.
  destruct (Z.ltb_spec (i + 1) 0) as [?|_]; [lia|].
  destruct (Z.le_gt_cases (i + 1) (len l)) as [Hle|Hgt].
  - by rewrite Z.min_l.
  - rewrite Z.min_r by lia. unfold len in *.
    rewrite !take_ge; [done | lia | lia].
Qed.

Lemma last_drop_push (k : nat) l v :
  (k <= length l)%nat -> last (drop k (push l v)) = Some v.
Proof.
  intros Hk. unfold push. rewrite drop_app_le by done. apply last_snoc.
Qed.

End ArrayFacts.

(** ** The eviction loop *)

Section Eviction.
Import Array History.

Implicit Types (l r : list Js.value) (v : Js.value).

(** With a capacity that is not negative the loop ends within
    [length l + 1] tests, having dropped the excess from the front. *)
Lemma shift_while_drop (fuel : nat) (cap : Z) l :
  0 <= cap -> (length l < fuel)%nat ->
  shift_while fuel cap l = Returns (drop (Z.to_nat (len l - cap)) l).
Proof.
  intros Hcap. revert l.
  induction fuel as [|fuel IH]; intros l Hfuel; [lia|]. simpl.
  destruct (Z.gtb_spec (len l) cap) as [Hgt|Hle].
  - destruct l as [|x t]; [unfold len in Hgt; simpl in Hgt; lia|].
    unfold shift. simpl drop at 1. rewrite drop_0.
    rewrite IH by (simpl in Hfuel; lia).
    unfold len in *. simpl length in *.
    replace (Z.to_nat (Z.of_nat (S (length t)) - cap))
      with (S (Z.to_nat (Z.of_nat (length t) - cap))) by lia.
    done.
  - replace (Z.to_nat (len l - cap)) with O by lia. by rewrite drop_0.
Qed.

(** With a negative capacity the test never fails: no fuel is enough. *)
Lemma shift_while_negative (fuel : nat) (cap : Z) l :
  cap < 0 -> shift_while fuel cap l = Diverges.
Proof.
  intros Hcap. revert l. induction fuel as [|fuel IH]; intros l; [done|].
  simpl. pose proof (len_nonneg l).
  destruct (Z.gtb_spec (len l) cap) as [_|?]; [apply IH | lia].
Qed.

(** The loop never throws, and a result reached with some fuel is the
    result reached with the fuel [set] gives it. *)
Lemma shift_while_fuel (fuel : nat) (cap : Z) l r :
  shift_while fuel cap l = Returns r ->
  shift_while (S (length l)) cap l = Returns r.
Proof.
  destruct (Z.lt_ge_cases cap 0) as [Hneg|Hcap].
  { by rewrite shift_while_negative. }
  rewrite (shift_while_drop (S (length l))) by (done || lia).
  revert l. induction fuel as [|fuel IH]; intros l; [done|]. simpl.
  destruct (Z.gtb_spec (len l) cap) as [Hgt|Hle].
  - intros H. apply IH in H. rewrite <- H.
    destruct l as [|x t]; [unfold len in Hgt; simpl in Hgt; lia|].
    unfold shift. simpl drop at 2. rewrite drop_0.
    unfold len in *. simpl length in *.
    replace (Z.to_nat (Z.of_nat (S (length t)) - cap))
      with (S (Z.to_nat (Z.of_nat (length t) - cap))) by lia.
    done.
  - intros [= <-]. replace (Z.to_nat (len l - cap)) with O by lia.
    by rewrite drop_0.
Qed.

End Eviction.

(** ** The two branches of [set] *)

Section SetBranches.
Import Array History.

Implicit Types (h : hook) (a : arg).

Lemma set_same h a :
  Js.strict_eq (get (historyRef h) (pointerRef h)) (resolve h a) = true ->
  set h a =
    Returns {| value := resolve h a; historyRef := historyRef h;
               pointerRef := pointerRef h; capacity := capacity h |}.
Proof. intros Heq. unfold set. by rewrite Heq. Qed.

Lemma set_changed h a :
  Js.strict_eq (get (historyRef h) (pointerRef h)) (resolve h a) = false ->
  0 <= capacity h ->
  set h a =
    Returns {| value := resolve h a;
               historyRef := evicted (capacity h) (appended h (resolve h a));
               pointerRef :=
                 len (evicted (capacity h) (appended h (resolve h a))) - 1;
               capacity := capacity h |}.
Proof.
  intros Hne Hcap. unfold set. rewrite Hne. simpl negb. cbv iota zeta.
  rewrite shift_while_drop by (done || lia). done.
Qed.

Lemma set_negative h a :
  Js.strict_eq (get (historyRef h) (pointerRef h)) (resolve h a) = false ->
  capacity h < 0 -> set h a = Diverges.
Proof.
  intros Hne Hcap. unfold set. rewrite Hne. simpl negb. cbv iota zeta.
  by rewrite shift_while_negative.
Qed.

Lemma appended_push h v :
  exists kept, appended h v = push kept v.
Proof. unfold appended. eauto. Qed.

(** With a cursor inside the log, the entries up to the cursor are kept. *)
Lemma appended_in_range h v :
  0 <= pointerRef h < len (historyRef h) ->
  appended h v = push (take (Z.to_nat (pointerRef h + 1)) (historyRef h)) v.
Proof.
  intros Hp. unfold appended.
  destruct (Z.ltb_spec (pointerRef h) (len (historyRef h) - 1)) as [Hlt|Hge].
  - rewrite splice_in_range by lia. done.
  - unfold len in *. rewrite take_ge by lia. done.
Qed.

(** With room for one entry, the loop leaves the pushed value last. *)
Lemma evicted_push (cap : Z) (kept : list Js.value) (v : Js.value) :
  1 <= cap ->
  last (evicted cap (push kept v)) = Some v /\
  1 <= len (evicted cap (push kept v)) <= cap /\
  get (evicted cap (push kept v)) (len (evicted cap (push kept v)) - 1) = v.
Proof.
  intros Hcap. unfold evicted.
  set (k := Z.to_nat (len (push kept v) - cap)).
  assert (Hk : (k <= length kept)%nat).
  { subst k. rewrite len_push. unfold len. lia. }
  assert (Hlast : last (drop k (push kept v)) = Some v)
    by by apply last_drop_push.
  assert (Hlen : 1 <= len (drop k (push kept v)) <= cap).
  { rewrite len_drop. subst k. rewrite len_push in *. unfold len in *. lia. }
  split; [done|]. split; [done|].
  apply get_lookup; [lia|].
  rewrite last_lookup in Hlast. rewrite <- Hlast. f_equal.
  unfold len. lia.
Qed.

End SetBranches.

(** ** States of a hook with a capacity of at least one *)

Section Bounded.
Import Array History.

Implicit Types (h : hook) (a : arg) (o : op).

Lemma bounded_create (defaultValue : Js.value) (cap : Z) :
  1 <= cap ->
  bounded {| value := defaultValue; historyRef := [defaultValue];
             pointerRef := 0; capacity := cap |}.
Proof. intros Hcap. split; simpl; unfold len; simpl; (done || lia). Qed.

Lemma bounded_set h a :
  bounded h ->
  exists h', set h a = Returns h' /\ bounded h' /\ capacity h' = capacity h.
Proof.
  intros [Hcap Hlen Hp Hv].
  destruct (Js.strict_eq (get (historyRef h) (pointerRef h)) (resolve h a))
    eqn:Heq.
  - rewrite set_same by done. eexists; split; [done|]. split; [|done].
    split; simpl; try done. symmetry. by apply strict_eq_eq.
  - rewrite set_changed by (done || lia). eexists; split; [done|].
    split; [|done].
    destruct (appended_push h (resolve h a)) as [kept ->].
    destruct (evicted_push (capacity h) kept (resolve h a) Hcap)
      as (_ & Hl & Hg).
    split; simpl; (done || lia).
Qed.

Lemma bounded_back h : bounded h -> bounded (back h).
Proof.
  intros [Hcap Hlen Hp Hv]. unfold back.
  destruct (Z.leb_spec (pointerRef h) 0); [done|].
  split; simpl; (done || lia).
Qed.

Lemma bounded_forward h : bounded h -> bounded (forward h).
Proof.
  intros [Hcap Hlen Hp Hv]. unfold forward.
  destruct (Z.geb_spec (pointerRef h) (len (historyRef h) - 1)); [done|].
  split; simpl; (done || lia).
Qed.

Lemma bounded_go (index : Z) h : bounded h -> bounded (go index h).
Proof.
  intros [Hcap Hlen Hp Hv]. unfold go.
  destruct (Z.ltb_spec index 0); simpl; [done|].
  destruct (Z.gtb_spec index (len (historyRef h) - 1)); [done|].
  split; simpl; (done || lia).
Qed.

Lemma capacity_back h : capacity (back h) = capacity h.
Proof. unfold back. by destruct (_ <=? _). Qed.

Lemma capacity_forward h : capacity (forward h) = capacity h.
Proof. unfold forward. by destruct (_ >=? _). Qed.

Lemma capacity_go (index : Z) h : capacity (go index h) = capacity h.
Proof. unfold go. by destruct (_ || _). Qed.

Lemma bounded_step h o :
  bounded h ->
  exists h', step h o = Returns h' /\ bounded h' /\ capacity h' = capacity h.
Proof.
  intros Hb. destruct o as [a| | |index]; simpl.
  - by apply bounded_set.
  - eexists; split; [done|]. split; [by apply bounded_back|].
    apply capacity_back.
  - eexists; split; [done|]. split; [by apply bounded_forward|].
    apply capacity_forward.
  - eexists; split; [done|]. split; [by apply bounded_go|].
    apply capacity_go.
Qed.

Lemma bounded_run (ops : list op) h :
  bounded h ->
  exists h', run ops h = Returns h' /\ bounded h' /\ capacity h' = capacity h.
Proof.
  revert h. induction ops as [|o ops IH]; intros h Hb; simpl.
  - by exists h.
  - destruct (bounded_step h o Hb) as (h1 & -> & Hb1 & Hc1).
    destruct (IH h1 Hb1) as (h2 & Hr & Hb2 & Hc2).
    exists h2. split; [done|]. split; [done | congruence].
Qed.

Lemma bounded_session (defaultValue : Js.value) (opt_capacity : option Z)
    (ops : list op) :
  1 <= default 10 opt_capacity ->
  exists h, session defaultValue opt_capacity ops = Returns h /\
            bounded h /\ capacity h = default 10 opt_capacity.
Proof.
  intros Hcap. unfold session, useStateWithHistory.
  apply (bounded_run ops). by apply bounded_create.
Qed.

End Bounded.

(** ** Coherence of the visible value, for every capacity *)

Section Coherent.
Import Array History.

Implicit Types (h : hook) (a : arg) (o : op).

Lemma coherent_create (defaultValue : Js.value) (cap : Z) :
  coherent {| value := defaultValue; historyRef := [defaultValue];
              pointerRef := 0; capacity := cap |}.
Proof. by left. Qed.

(** Whatever the state [set] starts from, the state it returns is
    coherent. *)
Lemma coherent_set h a h' : set h a = Returns h' -> coherent h'.
Proof.
  destruct (Js.strict_eq (get (historyRef h) (pointerRef h)) (resolve h a))
    eqn:Heq.
  - rewrite set_same by done. intros [= <-]. left. simpl.
    symmetry. by apply strict_eq_eq.
  - destruct (Z.lt_ge_cases (capacity h) 0) as [Hneg|Hcap].
    { by rewrite set_negative. }
    rewrite set_changed by (done || lia). intros [= <-].
    destruct (appended_push h (resolve h a)) as [kept ->].
    destruct (Z.eq_dec (capacity h) 0) as [H0|Hpos].
    + right. simpl. rewrite H0. unfold evicted.
      rewrite Z.sub_0_r. unfold len. rewrite Nat2Z.id, drop_all. done.
    + left. simpl.
      destruct (evicted_push (capacity h) kept (resolve h a)) as (_ & _ & Hg);
        [lia | done].
Qed.

Lemma coherent_back h : coherent h -> coherent (back h).
Proof.
  intros Hc. unfold back.
  destruct (Z.leb_spec (pointerRef h) 0); [done | by left].
Qed.

Lemma coherent_forward h : coherent h -> coherent (forward h).
Proof.
  intros Hc. unfold forward.
  destruct (Z.geb_spec (pointerRef h) (len (historyRef h) - 1));
    [done | by left].
Qed.

Lemma coherent_go (index : Z) h : coherent h -> coherent (go index h).
Proof.
  intros Hc. unfold go. destruct (_ || _); [done | by left].
Qed.

Lemma coherent_run (ops : list op) h h' :
  coherent h -> run ops h = Returns h' -> coherent h'.
Proof.
  revert h. induction ops as [|o ops IH]; intros h Hc; simpl.
  - by intros [= <-].
  - destruct o as [a| | |index]; simpl.
    + destruct (set h a) as [h1| |] eqn:Hs; simpl; try done.
      apply IH. by eapply coherent_set.
    + apply IH. by apply coherent_back.
    + apply IH. by apply coherent_forward.
    + apply IH. by apply coherent_go.
Qed.

Lemma coherent_session (defaultValue : Js.value) (opt_capacity : option Z)
    (ops : list op) h :
  session defaultValue opt_capacity ops = Returns h -> coherent h.
Proof.
  unfold session, useStateWithHistory. apply coherent_run, coherent_create.
Qed.

End Coherent.

(** ** Navigation *)

Section Navigation.
Import Array History.

Implicit Types (h : hook) (o : op).

Lemma history_back h : historyRef (back h) = historyRef h.
Proof. unfold back. by destruct (_ <=? _). Qed.

Lemma history_forward h : historyRef (forward h) = historyRef h.
Proof. unfold forward. by destruct (_ >=? _). Qed.

Lemma history_go (index : Z) h : historyRef (go index h) = historyRef h.
Proof. unfold go. by destruct (_ || _). Qed.

(** A call of [back] or [forward] returns, leaves the log alone, and either
    changes nothing or shows the entry under the new cursor. *)
Lemma nav_step h o :
  is_nav o = true ->
  exists h', step h o = Returns h' /\ historyRef h' = historyRef h /\
    (h' = h \/ value h' = get (historyRef h') (pointerRef h')).
Proof.
  destruct o as [a| | |index]; simpl; try done; intros _.
  - exists (back h). split; [done|]. split; [apply history_back|].
    unfold back. destruct (_ <=? _); [by left | by right].
  - exists (forward h). split; [done|]. split; [apply history_forward|].
    unfold forward. destruct (_ >=? _); [by left | by right].
Qed.

Lemma nav_run (navs : list op) h :
  forallb is_nav navs = true ->
  exists h', run navs h = Returns h' /\ historyRef h' = historyRef h /\
    (h' = h \/ value h' = get (historyRef h') (pointerRef h')).
Proof.
  revert h. induction navs as [|o navs IH]; intros h Hn; simpl.
  - exists h. split; [done|]. split; [done | by left].
  - simpl in Hn. apply andb_prop in Hn as [Ho Hn].
    destruct (nav_step h o Ho) as (h1 & -> & Hh1 & Hv1).
    destruct (IH h1 Hn) as (h2 & Hr & Hh2 & Hv2).
    exists h2. split; [done|]. split; [congruence|].
    destruct Hv2 as [->|Hv2]; [done | by right].
Qed.

(** On an empty log with the cursor before it, nothing moves. *)
Lemma nav_run_empty (navs : list op) h :
  historyRef h = [] -> pointerRef h = -1 ->
  forallb is_nav navs = true -> run navs h = Returns h.
Proof.
  intros Hh Hp. induction navs as [|o navs IH]; simpl; [done|].
  intros Hn. apply andb_prop in Hn as [Ho Hn].
  destruct o as [a| | |index]; simpl in *; try done.
  - unfold back. rewrite Hp. simpl. by apply IH.
  - unfold forward. rewrite Hp, Hh. simpl. by apply IH.
Qed.

End Navigation.

(** ** Capacities below one *)

Section SmallCapacity.
Import Array History Scenario.

(** With capacity 0 the loop empties the log and the cursor becomes -1,
    while the value set is shown. *)
Example capacity_zero_empties_log :
  session (Js.Num 0) (Some 0) [commit 1] = Returns (Hook (Js.Num 1) [] (-1) 0).
Proof. reflexivity. Qed.

(** With a negative capacity the first [set] of a new value never returns
    (no fuel is enough, by [shift_while_negative]); a [set] of the value
    under the cursor does. *)
Example negative_capacity_diverges :
  session (Js.Num 0) (Some (-1)) [commit 1] = Diverges /\
  session (Js.Num 0) (Some (-1)) [commit 0] =
    Returns (Hook (Js.Num 0) [Js.Num 0] 0 (-1)).
Proof. split; reflexivity. Qed.

End SmallCapacity.

(** ** Properties of the hook *)

Section Properties.
Import Array History Scenario.

Implicit Types (h : hook) (a : arg) (o : op).

(** C1, as amended: when the resolved value is strictly equal ([===]) to
    the entry under the cursor, [set] leaves the log and the cursor as they
    are and makes the resolved value the visible value. *)
Theorem set_strict_equal_keeps_log h a :
  Js.strict_eq (get (historyRef h) (pointerRef h)) (resolve h a) = true ->
  exists h', set h a = Returns h' /\
    historyRef h' = historyRef h /\ pointerRef h' = pointerRef h /\
    currentValue h' = resolve h a.
Proof.
  intros Heq. rewrite set_same by done. by eexists.
Qed.

Lemma set_strict_equal_keeps_log_witness :
  Js.strict_eq (get (historyRef object_hook) (pointerRef object_hook))
    (resolve object_hook (Literal (Js.Ref 1))) = true /\
  exists h', set object_hook (Literal (Js.Ref 1)) = Returns h' /\
    historyRef h' = historyRef object_hook /\
    pointerRef h' = pointerRef object_hook /\
    currentValue h' = resolve object_hook (Literal (Js.Ref 1)).
Proof.
  split; [reflexivity|].
  apply (set_strict_equal_keeps_log object_hook (Literal (Js.Ref 1))).
  reflexivity.
Defined.

(** C1, as stated, fails: the hook created with the object at address 1
    holds it under the cursor; the object at address 2 equals it by value,
    and [set] appends it and moves the cursor. *)
Lemma set_value_equal_object_appends :
  useStateWithHistory (Js.Ref 1) None = Returns object_hook /\
  Js.value_eq 1 two_objects (Js.Ref 2)
    (get (historyRef object_hook) (pointerRef object_hook)) = true /\
  ~ (exists h', set object_hook (Literal (Js.Ref 2)) = Returns h' /\
       historyRef h' = historyRef object_hook /\
       pointerRef h' = pointerRef object_hook /\
       currentValue h' = Js.Ref 2).
Proof.
  split; [reflexivity|]. split; [by vm_compute|].
  intros (h' & Hs & Hh & _). vm_compute in Hs.
  injection Hs as <-. discriminate Hh.
Qed.

(** C2, as amended: construction never fails; for every capacity, given
    or not, it returns a hook whose log is [[defaultValue]] and whose
    cursor is 0. *)
Theorem useStateWithHistory_returns (defaultValue : Js.value)
    (opt_capacity : option Z) :
  useStateWithHistory defaultValue opt_capacity =
    Returns {| value := defaultValue; historyRef := [defaultValue];
               pointerRef := 0; capacity := default 10 opt_capacity |}.
Proof. reflexivity. Qed.

(** C2, as stated, fails: with capacity 0, which is less than 1,
    construction does not fail with [InvalidConfiguration]. *)
Lemma useStateWithHistory_capacity_zero :
  (0 < 1) /\
  useStateWithHistory (Js.Num 0) (Some 0) <> Throws InvalidConfiguration.
Proof. split; [lia | discriminate]. Qed.

(** C3, as amended: from [useStateWithHistory(0, { capacity: 3 })], the
    calls [set(1); set(2); set(3)] give the log [[1,2,3]] with cursor 2;
    then [back()] shows 2 with cursor 1; then [set(9)] gives the log
    [[1,2,9]] with cursor 2; then [forward()] changes nothing. *)
Theorem scenario_capacity_three :
  session (Js.Num 0) (Some 3) three_commits =
    Returns (Hook (Js.Num 3) [Js.Num 1; Js.Num 2; Js.Num 3] 2 3) /\
  session (Js.Num 0) (Some 3) (three_commits ++ [Back]) =
    Returns (Hook (Js.Num 2) [Js.Num 1; Js.Num 2; Js.Num 3] 1 3) /\
  session (Js.Num 0) (Some 3) (three_commits ++ [Back; commit 9]) =
    Returns (Hook (Js.Num 9) [Js.Num 1; Js.Num 2; Js.Num 9] 2 3) /\
  session (Js.Num 0) (Some 3) (three_commits ++ [Back; commit 9; Forward]) =
    session (Js.Num 0) (Some 3) (three_commits ++ [Back; commit 9]).
Proof. repeat split; reflexivity. Qed.

(** C3, as stated, fails: after [back()] and [set(9)] the log is not
    [[1,9]] with cursor 1. *)
Lemma scenario_commit_after_back :
  ~ (exists h,
       session (Js.Num 0) (Some 3) (three_commits ++ [Back; commit 9]) =
         Returns h /\
       historyRef h = [Js.Num 1; Js.Num 9] /\ pointerRef h = 1).
Proof.
  intros (h & Hs & Hh & _). vm_compute in Hs.
  injection Hs as <-. discriminate Hh.
Qed.

(** C4: a hook created with a capacity of at least one holds at most
    [capacity] entries after every sequence of calls; and a [set] that
    appends leaves the appended log without its first entries in excess of
    the capacity, the new value last. *)
Theorem log_within_capacity (defaultValue : Js.value)
    (opt_capacity : option Z) (ops : list op) :
  1 <= default 10 opt_capacity ->
  exists h, session defaultValue opt_capacity ops = Returns h /\
    len (historyRef h) <= default 10 opt_capacity /\
    forall a,
      Js.strict_eq (get (historyRef h) (pointerRef h)) (resolve h a) = false ->
      exists h', set h a = Returns h' /\
        historyRef h' =
          drop (Z.to_nat (len (appended h (resolve h a))
                          - default 10 opt_capacity))
               (appended h (resolve h a)) /\
        last (historyRef h') = Some (resolve h a).
Proof.
  intros Hcap.
  destruct (bounded_session defaultValue opt_capacity ops Hcap)
    as (h & Hs & Hb & Hc).
  exists h. split; [done|]. split.
  { rewrite <- Hc. apply Hb. }
  intros a Hne. rewrite set_changed by (done || lia).
  eexists. split; [done|]. simpl. rewrite Hc. split; [done|].
  destruct (appended_push h (resolve h a)) as [kept ->].
  by apply evicted_push.
Qed.

Lemma log_within_capacity_witness :
  1 <= default 10 (Some 3) /\
  exists h, session (Js.Num 0) (Some 3) three_commits = Returns h /\
    len (historyRef h) <= default 10 (Some 3) /\
    forall a,
      Js.strict_eq (get (historyRef h) (pointerRef h)) (resolve h a) = false ->
      exists h', set h a = Returns h' /\
        historyRef h' =
          drop (Z.to_nat (len (appended h (resolve h a))
                          - default 10 (Some 3)))
               (appended h (resolve h a)) /\
        last (historyRef h') = Some (resolve h a).
Proof.
  split; [simpl; lia|].
  apply (log_within_capacity (Js.Num 0) (Some 3) three_commits).
  simpl; lia.
Defined.

(** C5: in every state a hook created with a capacity of at least one
    reaches, the log is not empty and the cursor is an index of it. *)
Theorem cursor_indexes_log (defaultValue : Js.value)
    (opt_capacity : option Z) (ops : list op) :
  1 <= default 10 opt_capacity ->
  exists h, session defaultValue opt_capacity ops = Returns h /\
    historyRef h <> [] /\
    0 <= pointerRef h < len (historyRef h) /\
    is_Some (historyRef h !! Z.to_nat (pointerRef h)).
Proof.
  intros Hcap.
  destruct (bounded_session defaultValue opt_capacity ops Hcap)
    as (h & Hs & [_ Hl Hp _] & _).
  exists h. split; [done|]. split.
  { intros Hnil. rewrite Hnil in Hl. unfold len in Hl. simpl in Hl. lia. }
  split; [done|]. rewrite lookup_get by done. by eexists.
Qed.

Lemma cursor_indexes_log_witness :
  1 <= default 10 None /\
  exists h,
    session (Js.Num 0) None (three_commits ++ [Back; Go 7; Go 0; Forward]) =
      Returns h /\
    historyRef h <> [] /\
    0 <= pointerRef h < len (historyRef h) /\
    is_Some (historyRef h !! Z.to_nat (pointerRef h)).
Proof.
  split; [simpl; lia|].
  apply (cursor_indexes_log (Js.Num 0) None
           (three_commits ++ [Back; Go 7; Go 0; Forward])).
  simpl; lia.
Defined.

(** C6: with a capacity of at least one, [set] returns; when the value set
    differs ([!==]) from the entry under the cursor, which is when [set]
    writes the log, the cursor is the last index afterwards and the entry
    there is the value just set, which is the visible value; and a log that
    is not what it was has been written in that way. *)
Theorem set_makes_new_entry_current h a :
  1 <= capacity h ->
  exists h', set h a = Returns h' /\
    (Js.strict_eq (get (historyRef h) (pointerRef h)) (resolve h a) = false ->
     pointerRef h' = len (historyRef h') - 1 /\
     historyRef h' !! Z.to_nat (pointerRef h') = Some (resolve h a) /\
     currentValue h' = resolve h a) /\
    (historyRef h' <> historyRef h ->
     Js.strict_eq (get (historyRef h) (pointerRef h)) (resolve h a) = false).
Proof.
  intros Hcap.
  destruct (Js.strict_eq (get (historyRef h) (pointerRef h)) (resolve h a))
    eqn:Heq.
  - rewrite set_same by done. eexists. split; [done|]. simpl.
    split; [discriminate | done].
  - rewrite set_changed by (done || lia). eexists. split; [done|].
    simpl. split; [|done]. intros _. split; [done|]. split; [|done].
    destruct (appended_push h (resolve h a)) as [kept ->].
    destruct (evicted_push (capacity h) kept (resolve h a) Hcap)
      as (_ & Hl & Hg).
    rewrite lookup_get by lia. by rewrite Hg.
Qed.

Lemma set_makes_new_entry_current_witness :
  1 <= capacity (Hook (Js.Num 1) [Js.Num 1; Js.Num 2] 0 3) /\
  Js.strict_eq
    (get (historyRef (Hook (Js.Num 1) [Js.Num 1; Js.Num 2] 0 3))
       (pointerRef (Hook (Js.Num 1) [Js.Num 1; Js.Num 2] 0 3)))
    (resolve (Hook (Js.Num 1) [Js.Num 1; Js.Num 2] 0 3)
       (Literal (Js.Num 2))) = false /\
  exists h',
    set (Hook (Js.Num 1) [Js.Num 1; Js.Num 2] 0 3) (Literal (Js.Num 2)) =
      Returns h' /\
    historyRef h' = [Js.Num 1; Js.Num 2] /\
    pointerRef h' = len (historyRef h') - 1 /\
    historyRef h' !! Z.to_nat (pointerRef h') = Some (Js.Num 2) /\
    currentValue h' = Js.Num 2.
Proof.
  split; [simpl; lia|]. split; [reflexivity|].
  destruct (set_makes_new_entry_current
              (Hook (Js.Num 1) [Js.Num 1; Js.Num 2] 0 3)
              (Literal (Js.Num 2)))
    as (h' & Hs & Hset & _); [simpl; lia|].
  exists h'. split; [exact Hs|]. split.
  - vm_compute in Hs. by injection Hs as <-.
  - apply Hset. reflexivity.
Defined.

(** C7: on the log [[a,b,c,d]] with the cursor on [b], in a hook with room
    for three entries, [set] of a value that differs ([!==]) from [b]
    gives the log [[a,b,x]] with cursor 2: [c] and [d] are gone. *)
Theorem set_truncates_forward_branch (a b c d current : Js.value)
    (cap : Z) (x : arg) :
  3 <= cap ->
  Js.strict_eq b (resolve (four_entries a b c d current cap) x) = false ->
  set (four_entries a b c d current cap) x =
    Returns {| value := resolve (four_entries a b c d current cap) x;
               historyRef :=
                 [a; b; resolve (four_entries a b c d current cap) x];
               pointerRef := 2; capacity := cap |}.
Proof.
  intros Hcap Hne. rewrite set_changed; [|done|simpl; lia].
  unfold evicted. simpl capacity.
  set (v := resolve _ x).
  replace (appended (four_entries a b c d current cap) v) with [a; b; v]
    by reflexivity.
  replace (Z.to_nat (len [a; b; v] - cap)) with O
    by (unfold len; simpl; lia).
  reflexivity.
Qed.

Lemma set_truncates_forward_branch_witness :
  3 <= 4 /\
  Js.strict_eq (Js.Str "b")
    (resolve (four_entries (Js.Str "a") (Js.Str "b") (Js.Str "c")
                (Js.Str "d") (Js.Str "b") 4)
       (Literal (Js.Str "x"))) = false /\
  set (four_entries (Js.Str "a") (Js.Str "b") (Js.Str "c") (Js.Str "d")
         (Js.Str "b") 4) (Literal (Js.Str "x")) =
    Returns {| value := Js.Str "x";
               historyRef := [Js.Str "a"; Js.Str "b"; Js.Str "x"];
               pointerRef := 2; capacity := 4 |}.
Proof.
  split; [lia|]. split; [reflexivity|].
  apply (set_truncates_forward_branch (Js.Str "a") (Js.Str "b")
           (Js.Str "c") (Js.Str "d") (Js.Str "b") 4 (Literal (Js.Str "x")));
    [lia | reflexivity].
Defined.

(** C8: [back()] with the cursor at 0 or below, [forward()] with the
    cursor at the last index or beyond, and [go(i)] with [i] outside the
    log all return with the state as it was; [go(k)] with [k] an index of
    the log sets the cursor to [k] and shows the entry at [k]. *)
Theorem navigation_out_of_range_is_noop h :
  (pointerRef h <= 0 -> step h Back = Returns h) /\
  (pointerRef h >= len (historyRef h) - 1 -> step h Forward = Returns h) /\
  (forall i : Z,
     i < 0 \/ i > len (historyRef h) - 1 -> step h (Go i) = Returns h) /\
  (forall k : Z,
     0 <= k <= len (historyRef h) - 1 ->
     exists h', step h (Go k) = Returns h' /\
       pointerRef h' = k /\
       historyRef h' = historyRef h /\
       historyRef h !! Z.to_nat k = Some (currentValue h')).
Proof.
  repeat split.
  - intros Hp. simpl. unfold back.
    destruct (Z.leb_spec (pointerRef h) 0); [done | lia].
  - intros Hp. simpl. unfold forward.
    destruct (Z.geb_spec (pointerRef h) (len (historyRef h) - 1));
      [done | lia].
  - intros i Hi. simpl. unfold go.
    destruct (Z.ltb_spec i 0); [done|].
    destruct (Z.gtb_spec i (len (historyRef h) - 1)); [done | lia].
  - intros k Hk. simpl. unfold go.
    destruct (Z.ltb_spec k 0); [lia|].
    destruct (Z.gtb_spec k (len (historyRef h) - 1)); [lia|].
    eexists. split; [done|]. simpl. split; [done|]. split; [done|].
    unfold currentValue. simpl. apply lookup_get. lia.
Qed.

Lemma navigation_out_of_range_is_noop_witness :
  step object_hook Back = Returns object_hook /\
  step object_hook Forward = Returns object_hook /\
  step object_hook (Go (-1)) = Returns object_hook /\
  step object_hook (Go (len (historyRef object_hook))) =
    Returns object_hook /\
  exists h', step object_hook (Go 0) = Returns h' /\
    pointerRef h' = 0 /\
    historyRef h' = historyRef object_hook /\
    historyRef object_hook !! Z.to_nat 0 = Some (currentValue h').
Proof.
  destruct (navigation_out_of_range_is_noop object_hook)
    as (Hback & Hforward & Hout & Hin).
  split; [apply Hback; simpl; lia|].
  split; [apply Hforward; vm_compute; discriminate|].
  split; [apply Hout; left; lia|].
  split; [apply Hout; right; vm_compute; reflexivity|].
  apply Hin. vm_compute. split; discriminate.
Defined.

(** C9: in every state a hook reaches, a sequence of [back()] and
    [forward()] calls returns, and when it has brought the cursor to the
    index it started from, the visible value is the one it started from,
    and so is the entry under the cursor. *)
Theorem back_forward_round_trip (defaultValue : Js.value)
    (opt_capacity : option Z) (ops navs : list op) h :
  session defaultValue opt_capacity ops = Returns h ->
  forallb is_nav navs = true ->
  exists h', run navs h = Returns h' /\
    (pointerRef h' = pointerRef h ->
     currentValue h' = currentValue h /\
     get (historyRef h') (pointerRef h') = get (historyRef h) (pointerRef h)).
Proof.
  intros Hs Hn. apply coherent_session in Hs.
  destruct (nav_run navs h Hn) as (h' & Hr & Hh & Hv).
  exists h'. split; [done|]. intros Hp. rewrite Hh, Hp. split; [|done].
  unfold currentValue.
  destruct Hv as [->|Hv]; [done|].
  destruct Hs as [Hc|[Hnil Hm]].
  - rewrite Hv, Hc, Hh, Hp. done.
  - rewrite (nav_run_empty navs h Hnil Hm Hn) in Hr. by injection Hr as <-.
Qed.

Lemma back_forward_round_trip_witness :
  session (Js.Num 0) (Some 3) three_commits =
    Returns (Hook (Js.Num 3) [Js.Num 1; Js.Num 2; Js.Num 3] 2 3) /\
  forallb is_nav [Back; Back; Back; Forward; Forward] = true /\
  exists h',
    run [Back; Back; Back; Forward; Forward]
      (Hook (Js.Num 3) [Js.Num 1; Js.Num 2; Js.Num 3] 2 3) = Returns h' /\
    (pointerRef h' = 2 ->
     currentValue h' = Js.Num 3 /\
     get (historyRef h') (pointerRef h') =
       get [Js.Num 1; Js.Num 2; Js.Num 3] 2).
Proof.
  split; [reflexivity|]. split; [reflexivity|].
  apply (back_forward_round_trip (Js.Num 0) (Some 3) three_commits
           [Back; Back; Back; Forward; Forward]
           (Hook (Js.Num 3) [Js.Num 1; Js.Num 2; Js.Num 3] 2 3));
    reflexivity.
Defined.

(** C10: [back()], [forward()] and [go(index)] return with the log they
    were given: the same entries, in the same number.  The capacity is
    untouched too: only the cursor and the visible value can differ. *)
Theorem navigation_keeps_log h :
  (exists h', step h Back = Returns h' /\
     historyRef h' = historyRef h /\ capacity h' = capacity h) /\
  (exists h', step h Forward = Returns h' /\
     historyRef h' = historyRef h /\ capacity h' = capacity h) /\
  (forall index : Z,
     exists h', step h (Go index) = Returns h' /\
       historyRef h' = historyRef h /\ capacity h' = capacity h).
Proof.
  split; [|split; [|intros index]]; eexists; (split; [done|]).
  - split; [apply history_back | apply capacity_back].
  - split; [apply history_forward | apply capacity_forward].
  - split; [apply history_go | apply capacity_go].
Qed.

End Properties.

(** ** More on [useStateWithHistory]: degenerate capacities, undo and redo *)

Section HistoryMore.
Import Array History Scenario.

Implicit Types (h : hook) (a : arg) (v : Js.value).

Lemma strict_eq_refl v : v <> Js.NaN -> Js.strict_eq v v = true.
Proof.
  destruct v; simpl; intros H; try reflexivity; try congruence.
  - by apply bool_decide_eq_true.
  - apply Z.eqb_refl.
  - by apply bool_decide_eq_true.
  - by apply bool_decide_eq_true.
Qed.

Lemma strict_eq_nan_r v : Js.strict_eq v Js.NaN = false.
Proof. by destruct v. Qed.

(** A state reached with a capacity of at least one is [bounded]. *)
Lemma session_bounded (defaultValue : Js.value) (opt_capacity : option Z)
    (ops : list op) h :
  session defaultValue opt_capacity ops = Returns h ->
  1 <= default 10 opt_capacity ->
  bounded h /\ capacity h = default 10 opt_capacity.
Proof.
  intros Hs Hcap.
  destruct (bounded_session defaultValue opt_capacity ops Hcap)
    as (h' & Hs' & Hb & Hc).
  rewrite Hs in Hs'. by injection Hs' as ->.
Qed.

(** The entry under the cursor is still there, one before the last, after
    a [set] that appends in a hook with room for two. *)
Lemma evicted_appended_previous h v :
  bounded h -> 2 <= capacity h ->
  2 <= len (evicted (capacity h) (appended h v)) /\
  get (evicted (capacity h) (appended h v))
      (len (evicted (capacity h) (appended h v)) - 2) = value h.
Proof.
  intros [Hcap Hl Hp Hv] Hcap2. rewrite appended_in_range by done.
  unfold evicted.
  set (kept := take (Z.to_nat (pointerRef h + 1)) (historyRef h)).
  assert (Hk : len kept = pointerRef h + 1).
  { subst kept. unfold len in *. rewrite length_take. lia. }
  set (k := Z.to_nat (len (push kept v) - capacity h)).
  assert (Hkle : Z.of_nat k <= pointerRef h).
  { subst k. rewrite len_push. lia. }
  assert (Hlen : len (drop k (push kept v)) = pointerRef h + 2 - Z.of_nat k).
  { rewrite len_drop, len_push. lia. }
  split; [lia|]. rewrite Hlen, Hv.
  apply get_lookup; [lia|].
  rewrite lookup_drop. unfold push.
  replace (k + Z.to_nat (pointerRef h + 2 - Z.of_nat k - 2))%nat
    with (Z.to_nat (pointerRef h)) by lia.
  rewrite lookup_app_l by (unfold len in Hk; lia).
  subst kept. rewrite lookup_take_lt by lia.
  apply lookup_get. lia.
Qed.

(** X1: with a negative capacity, [set] of a value that differs from the
    entry under the cursor never returns: the eviction loop does not end,
    whatever the fuel. *)
Theorem set_negative_capacity_never_returns h a :
  capacity h < 0 ->
  Js.strict_eq (get (historyRef h) (pointerRef h)) (resolve h a) = false ->
  set h a = Diverges /\
  forall fuel : nat,
    shift_while fuel (capacity h) (appended h (resolve h a)) = Diverges.
Proof.
  intros Hcap Hne. split; [by apply set_negative|].
  intros fuel. by apply shift_while_negative.
Qed.

Lemma set_negative_capacity_never_returns_witness :
  capacity (Hook (Js.Num 0) [Js.Num 0] 0 (-1)) < 0 /\
  set (Hook (Js.Num 0) [Js.Num 0] 0 (-1)) (Literal (Js.Num 1)) = Diverges /\
  forall fuel : nat,
    shift_while fuel (-1) [Js.Num 0; Js.Num 1] = Diverges.
Proof.
  split; [simpl; lia|].
  apply (set_negative_capacity_never_returns
           (Hook (Js.Num 0) [Js.Num 0] 0 (-1)) (Literal (Js.Num 1)));
    [simpl; lia | reflexivity].
Defined.

Lemma evicted_zero (l : list Js.value) : evicted 0 l = [].
Proof.
  unfold evicted. rewrite Z.sub_0_r. unfold len.
  by rewrite Nat2Z.id, drop_all.
Qed.

(** X2: with capacity 0, [set] of a value that differs from the entry
    under the cursor returns with an empty log and the cursor at -1, while
    the value is shown: the visible value is not in the log. *)
Theorem set_capacity_zero_empties_log h a :
  capacity h = 0 ->
  Js.strict_eq (get (historyRef h) (pointerRef h)) (resolve h a) = false ->
  set h a =
    Returns {| value := resolve h a; historyRef := []; pointerRef := -1;
               capacity := 0 |}.
Proof.
  intros Hcap Hne. rewrite set_changed by (done || lia).
  by rewrite Hcap, !evicted_zero.
Qed.

Lemma set_capacity_zero_empties_log_witness :
  set (Hook (Js.Num 0) [Js.Num 0] 0 0) (Literal (Js.Num 1)) =
    Returns (Hook (Js.Num 1) [] (-1) 0).
Proof.
  apply (set_capacity_zero_empties_log (Hook (Js.Num 0) [Js.Num 0] 0 0)
           (Literal (Js.Num 1))); reflexivity.
Defined.

(** X3: in a state reached with a capacity of at least one, [forward()]
    undoes a [back()] that moved, and [back()] undoes a [forward()] that
    moved: the whole state is restored. *)
Theorem forward_back_inverse (defaultValue : Js.value)
    (opt_capacity : option Z) (ops : list op) h :
  session defaultValue opt_capacity ops = Returns h ->
  1 <= default 10 opt_capacity ->
  (0 < pointerRef h -> forward (back h) = h) /\
  (pointerRef h < len (historyRef h) - 1 -> back (forward h) = h).
Proof.
  intros Hs Hcap.
  destruct (session_bounded _ _ _ _ Hs Hcap) as [[_ Hl Hp Hv] _].
  destruct h as [val hist p cap]. simpl in *. split; intros Hm.
  - unfold back. simpl. destruct (Z.leb_spec p 0); [lia|].
    unfold forward. simpl.
    destruct (Z.geb_spec (p - 1) (len hist - 1)); [lia|].
    replace (p - 1 + 1) with p by lia. by rewrite <- Hv.
  - unfold forward. simpl. destruct (Z.geb_spec p (len hist - 1)); [lia|].
    unfold back. simpl. destruct (Z.leb_spec (p + 1) 0); [lia|].
    replace (p + 1 - 1) with p by lia. by rewrite <- Hv.
Qed.

Lemma forward_back_inverse_witness :
  session (Js.Num 0) (Some 3) (three_commits ++ [Back]) =
    Returns (Hook (Js.Num 2) [Js.Num 1; Js.Num 2; Js.Num 3] 1 3) /\
  1 <= default 10 (Some 3) /\
  forward (back (Hook (Js.Num 2) [Js.Num 1; Js.Num 2; Js.Num 3] 1 3)) =
    Hook (Js.Num 2) [Js.Num 1; Js.Num 2; Js.Num 3] 1 3 /\
  back (forward (Hook (Js.Num 2) [Js.Num 1; Js.Num 2; Js.Num 3] 1 3)) =
    Hook (Js.Num 2) [Js.Num 1; Js.Num 2; Js.Num 3] 1 3.
Proof.
  split; [reflexivity|]. split; [simpl; lia|].
  destruct (forward_back_inverse (Js.Num 0) (Some 3)
              (three_commits ++ [Back])
              (Hook (Js.Num 2) [Js.Num 1; Js.Num 2; Js.Num 3] 1 3))
    as [Hfb Hbf]; [reflexivity | simpl; lia |].
  split; [apply Hfb; simpl; lia | apply Hbf; vm_compute; reflexivity].
Defined.

(** X4: in a state reached with a capacity of at least two, a [set] of a
    new value can be undone and redone: [back()] shows the value that was
    visible before the [set], and [forward()] then restores the state the
    [set] returned. *)
Theorem back_undoes_set (defaultValue : Js.value)
    (opt_capacity : option Z) (ops : list op) h a :
  session defaultValue opt_capacity ops = Returns h ->
  2 <= default 10 opt_capacity ->
  Js.strict_eq (currentValue h) (resolve h a) = false ->
  exists h1, set h a = Returns h1 /\
    currentValue (back h1) = currentValue h /\
    forward (back h1) = h1.
Proof.
  intros Hs Hcap Hne.
  destruct (session_bounded _ _ _ _ Hs) as [Hb Hc]; [lia|].
  assert (Hv := bounded_value h Hb). unfold currentValue in *.
  rewrite Hv in Hne. rewrite set_changed; [|done|rewrite Hc; lia].
  eexists. split; [done|].
  destruct (evicted_appended_previous h (resolve h a) Hb) as [Hl2 Hprev];
    [lia|].
  destruct (appended_push h (resolve h a)) as [kept Hk].
  destruct (evicted_push (capacity h) kept (resolve h a)) as (_ & _ & Hlast);
    [lia|]. rewrite <- Hk in Hlast.
  set (L := evicted (capacity h) (appended h (resolve h a))) in *.
  unfold back. simpl. destruct (Z.leb_spec (len L - 1) 0); [lia|]. simpl.
  replace (len L - 1 - 1) with (len L - 2) by lia.
  split; [by rewrite Hprev|].
  unfold forward. simpl.
  destruct (Z.geb_spec (len L - 2) (len L - 1)); [lia|].
  replace (len L - 2 + 1) with (len L - 1) by lia. by rewrite Hlast.
Qed.

Lemma back_undoes_set_witness :
  session (Js.Num 0) (Some 3) three_commits =
    Returns (Hook (Js.Num 3) [Js.Num 1; Js.Num 2; Js.Num 3] 2 3) /\
  2 <= default 10 (Some 3) /\
  exists h1,
    set (Hook (Js.Num 3) [Js.Num 1; Js.Num 2; Js.Num 3] 2 3)
        (Updater (fun _ => Js.Num 4)) = Returns h1 /\
    currentValue (back h1) = Js.Num 3 /\
    forward (back h1) = h1.
Proof.
  split; [reflexivity|]. split; [simpl; lia|].
  apply (back_undoes_set (Js.Num 0) (Some 3) three_commits
           (Hook (Js.Num 3) [Js.Num 1; Js.Num 2; Js.Num 3] 2 3)
           (Updater (fun _ => Js.Num 4)));
    [reflexivity | simpl; lia | reflexivity].
Defined.

(** X5: with a capacity that is not negative, setting a value other than
    [NaN] twice is setting it once: the first [set] returns, and the second
    returns the state the first returned. *)
Theorem set_twice_is_set_once h v :
  0 <= capacity h -> v <> Js.NaN ->
  exists h1, set h (Literal v) = Returns h1 /\
             set h1 (Literal v) = Returns h1.
Proof.
  intros Hcap Hv.
  destruct (Js.strict_eq (get (historyRef h) (pointerRef h))
              (resolve h (Literal v))) eqn:Heq.
  - rewrite set_same by done. eexists. split; [done|].
    by rewrite set_same.
  - rewrite set_changed by done. eexists. split; [done|].
    simpl resolve in *.
    destruct (appended_push h v) as [kept ->].
    destruct (Z.eq_dec (capacity h) 0) as [H0|Hpos].
    + rewrite H0, !evicted_zero.
      destruct (Js.strict_eq Js.Undefined v) eqn:Hu.
      * rewrite set_same; [done|]. exact Hu.
      * rewrite set_changed; [|exact Hu|simpl; lia]. simpl capacity.
        by rewrite !evicted_zero.
    + destruct (evicted_push (capacity h) kept v) as (_ & _ & Hg); [lia|].
      rewrite set_same; [done|]. simpl. rewrite Hg. by apply strict_eq_refl.
Qed.

Lemma set_twice_is_set_once_witness :
  0 <= capacity object_hook /\ Js.Ref 2 <> Js.NaN /\
  exists h1, set object_hook (Literal (Js.Ref 2)) = Returns h1 /\
             set h1 (Literal (Js.Ref 2)) = Returns h1.
Proof.
  split; [simpl; lia|]. split; [discriminate|].
  apply (set_twice_is_set_once object_hook (Js.Ref 2));
    [simpl; lia | discriminate].
Defined.

(** X6: [NaN] is never taken for the entry under the cursor: in a state
    reached with a capacity of at least one, with the cursor on the last
    entry and room left, [set(NaN)] appends [NaN] to the log, also when the
    visible value is [NaN] already. *)
Theorem set_nan_appends (defaultValue : Js.value)
    (opt_capacity : option Z) (ops : list op) h :
  session defaultValue opt_capacity ops = Returns h ->
  1 <= default 10 opt_capacity ->
  pointerRef h = len (historyRef h) - 1 ->
  len (historyRef h) < default 10 opt_capacity ->
  set h (Literal Js.NaN) =
    Returns {| value := Js.NaN; historyRef := historyRef h ++ [Js.NaN];
               pointerRef := len (historyRef h); capacity := capacity h |}.
Proof.
  intros Hs Hcap Hp Hroom.
  destruct (session_bounded _ _ _ _ Hs Hcap) as [[_ Hl _ _] Hc].
  rewrite set_changed; [|apply strict_eq_nan_r|lia].
  simpl resolve. unfold appended.
  destruct (Z.ltb_spec (pointerRef h) (len (historyRef h) - 1)); [lia|].
  unfold evicted. rewrite len_push.
  replace (Z.to_nat (len (historyRef h) + 1 - capacity h)) with O by lia.
  rewrite drop_0, len_push. unfold push.
  by replace (len (historyRef h) + 1 - 1) with (len (historyRef h)) by lia.
Qed.

Lemma set_nan_appends_witness :
  session Js.NaN None [] = Returns (Hook Js.NaN [Js.NaN] 0 10) /\
  set (Hook Js.NaN [Js.NaN] 0 10) (Literal Js.NaN) =
    Returns (Hook Js.NaN [Js.NaN; Js.NaN] 1 10).
Proof.
  split; [reflexivity|].
  apply (set_nan_appends Js.NaN None [] (Hook Js.NaN [Js.NaN] 0 10));
    [reflexivity | simpl; lia | reflexivity | vm_compute; reflexivity].
Defined.

(** X7: of two [go] calls in a row the first leaves no trace when the
    second has an index of the log: [go(j)] after [go(i)] is [go(j)]. *)
Theorem go_after_go (i j : Z) h :
  0 <= j <= len (historyRef h) - 1 ->
  go j (go i h) = go j h.
Proof.
  intros Hj. unfold go at 1 3. rewrite history_go.
  destruct (Z.ltb_spec j 0); [lia|].
  destruct (Z.gtb_spec j (len (historyRef h) - 1)); [lia|]. simpl.
  by rewrite capacity_go.
Qed.

Lemma go_after_go_witness :
  0 <= 2 <= len [Js.Num 1; Js.Num 2; Js.Num 3] - 1 /\
  go 2 (go 0 (Hook (Js.Num 2) [Js.Num 1; Js.Num 2; Js.Num 3] 1 3)) =
    go 2 (Hook (Js.Num 2) [Js.Num 1; Js.Num 2; Js.Num 3] 1 3).
Proof.
  split; [vm_compute; split; discriminate|].
  apply (go_after_go 0 2 (Hook (Js.Num 2) [Js.Num 1; Js.Num 2; Js.Num 3] 1 3)).
  vm_compute; split; discriminate.
Defined.

(** X8: in a state reached with a capacity of at least one, [n] calls of
    [back()] move the cursor [n] entries back and stop at 0; the log is the
    same and the visible value is the entry under the new cursor. *)
Theorem back_n_times (defaultValue : Js.value)
    (opt_capacity : option Z) (ops : list op) h (n : nat) :
  session defaultValue opt_capacity ops = Returns h ->
  1 <= default 10 opt_capacity ->
  pointerRef (Nat.iter n back h) = Z.max 0 (pointerRef h - Z.of_nat n) /\
  historyRef (Nat.iter n back h) = historyRef h /\
  currentValue (Nat.iter n back h) =
    get (historyRef h) (Z.max 0 (pointerRef h - Z.of_nat n)).
Proof.
  intros Hs Hcap.
  destruct (session_bounded _ _ _ _ Hs Hcap) as [[_ Hl Hp Hv] _].
  unfold currentValue. induction n as [|n (IHp & IHh & IHv)].
  - simpl. rewrite Z.sub_0_r, Z.max_r by lia. done.
  - rewrite Nat.iter_succ. set (hn := Nat.iter n back h) in *.
    unfold back.
    destruct (Z.leb_spec (pointerRef hn) 0) as [Hle|Hgt].
    + rewrite IHp, IHh, IHv.
      replace (Z.max 0 (pointerRef h - Z.of_nat (S n))) with 0 by lia.
      replace (Z.max 0 (pointerRef h - Z.of_nat n)) with 0 by lia. done.
    + simpl. rewrite IHp, IHh.
      replace (Z.max 0 (pointerRef h - Z.of_nat (S n)))
        with (Z.max 0 (pointerRef h - Z.of_nat n) - 1) by lia. done.
Qed.

Lemma back_n_times_witness :
  session (Js.Num 0) (Some 3) three_commits =
    Returns (Hook (Js.Num 3) [Js.Num 1; Js.Num 2; Js.Num 3] 2 3) /\
  1 <= default 10 (Some 3) /\
  pointerRef
    (Nat.iter 5 back (Hook (Js.Num 3) [Js.Num 1; Js.Num 2; Js.Num 3] 2 3)) =
    Z.max 0 (2 - Z.of_nat 5) /\
  historyRef
    (Nat.iter 5 back (Hook (Js.Num 3) [Js.Num 1; Js.Num 2; Js.Num 3] 2 3)) =
    [Js.Num 1; Js.Num 2; Js.Num 3] /\
  currentValue
    (Nat.iter 5 back (Hook (Js.Num 3) [Js.Num 1; Js.Num 2; Js.Num 3] 2 3)) =
    get [Js.Num 1; Js.Num 2; Js.Num 3] (Z.max 0 (2 - Z.of_nat 5)).
Proof.
  split; [reflexivity|]. split; [simpl; lia|].
  apply (back_n_times (Js.Num 0) (Some 3) three_commits
           (Hook (Js.Num 3) [Js.Num 1; Js.Num 2; Js.Num 3] 2 3) 5);
    [reflexivity | simpl; lia].
Defined.

End HistoryMore.

(** ** [useArray]: the updates and the indices they are given *)

Section ArrayHook.
Import Array UseArray.

Implicit Types (a : list Js.value) (x : Js.value) (i : Z).

Lemma relative_nonneg (i n : Z) : 0 <= i -> relative i n = Z.min i n.
Proof. intros Hi. unfold relative. by destruct (Z.ltb_spec i 0); [lia|]. Qed.

Lemma relative_negative (i n : Z) : i < 0 -> relative i n = Z.max (n + i) 0.
Proof. intros Hi. unfold relative. by destruct (Z.ltb_spec i 0); [|lia]. Qed.

Lemma slice_prefix i a :
  0 <= i -> slice 0 i a = take (Z.to_nat i) a.
Proof.
  intros Hi. unfold slice. pose proof (len_nonneg a).
  rewrite !relative_nonneg by lia.
  replace (Z.to_nat (Z.min 0 (len a))) with O by lia. rewrite drop_0.
  destruct (Z.le_gt_cases i (len a)).
  - f_equal. lia.
  - unfold len in *. rewrite !take_ge by lia. done.
Qed.

Lemma slice_prefix_negative i a :
  i < 0 -> slice 0 i a = take (Z.to_nat (len a + i)) a.
Proof.
  intros Hi. unfold slice. pose proof (len_nonneg a).
  rewrite (relative_nonneg 0), (relative_negative i) by lia.
  replace (Z.to_nat (Z.min 0 (len a))) with O by lia. rewrite drop_0.
  f_equal. lia.
Qed.

Lemma slice_suffix i a :
  0 <= i -> slice i (len a) a = drop (Z.to_nat i) a.
Proof.
  intros Hi. unfold slice. pose proof (len_nonneg a).
  rewrite !relative_nonneg by lia.
  destruct (Z.le_gt_cases i (len a)).
  - replace (Z.to_nat (Z.min i (len a))) with (Z.to_nat i) by lia.
    apply take_ge. rewrite length_drop. unfold len in *. lia.
  - unfold len in *. rewrite !drop_ge by lia. by rewrite take_nil.
Qed.

Lemma slice_suffix_negative i a :
  i < 0 -> slice i (len a) a = drop (Z.to_nat (len a + i)) a.
Proof.
  intros Hi. unfold slice. pose proof (len_nonneg a).
  rewrite (relative_negative i), (relative_nonneg (len a)) by lia.
  replace (Z.to_nat (Z.max (len a + i) 0)) with (Z.to_nat (len a + i)) by lia.
  apply take_ge. rewrite length_drop. unfold len in *. lia.
Qed.

Lemma update_take_drop i x a :
  0 <= i < len a ->
  update i x a = take (Z.to_nat i) a ++ x :: drop (S (Z.to_nat i)) a.
Proof.
  intros Hi. unfold update. rewrite slice_prefix, slice_suffix by lia.
  simpl. do 3 f_equal. lia.
Qed.

Lemma remove_take_drop i a :
  0 <= i < len a ->
  remove i a = take (Z.to_nat i) a ++ drop (S (Z.to_nat i)) a.
Proof.
  intros Hi. unfold remove. rewrite slice_prefix, slice_suffix by lia.
  do 2 f_equal. lia.
Qed.

(** X9: [update(index, x)] with an index of the array replaces the entry
    at that index and nothing else. *)
Theorem update_in_range i x a :
  0 <= i < len a ->
  update i x a = <[Z.to_nat i := x]> a.
Proof.
  intros Hi. rewrite update_take_drop by done.
  by rewrite insert_take_drop by (unfold len in Hi; lia).
Qed.

Lemma update_in_range_witness :
  0 <= 1 < len [Js.Num 1; Js.Num 2; Js.Num 3] /\
  update 1 (Js.Num 9) [Js.Num 1; Js.Num 2; Js.Num 3] =
    <[Z.to_nat 1 := Js.Num 9]> [Js.Num 1; Js.Num 2; Js.Num 3].
Proof.
  split; [vm_compute; split; [discriminate | reflexivity]|].
  apply (update_in_range 1 (Js.Num 9) [Js.Num 1; Js.Num 2; Js.Num 3]).
  vm_compute; split; [discriminate | reflexivity].
Defined.

(** X10: [update(index, x)] with an index at or beyond the length appends
    [x]: the array grows by one entry, wherever the index points. *)
Theorem update_beyond_end i x a :
  len a <= i -> update i x a = a ++ [x].
Proof.
  intros Hi. unfold update. pose proof (len_nonneg a).
  rewrite slice_prefix, slice_suffix by lia. unfold len in *.
  rewrite take_ge, drop_ge by lia. done.
Qed.

Lemma update_beyond_end_witness :
  len [Js.Num 1] <= 5 /\ update 5 (Js.Num 9) [Js.Num 1] = [Js.Num 1] ++ [Js.Num 9].
Proof.
  split; [vm_compute; discriminate|].
  apply (update_beyond_end 5 (Js.Num 9) [Js.Num 1]). vm_compute; discriminate.
Defined.

(** X11: [update(-1, x)] does not replace the last entry: the result is the
    array without its last entry, then [x], then the whole array. *)
Theorem update_minus_one x a :
  update (-1) x a = take (length a - 1) a ++ x :: a.
Proof.
  unfold update. rewrite slice_prefix_negative by lia.
  replace (-1 + 1) with 0 by lia. rewrite slice_suffix by lia.
  simpl. rewrite drop_0. do 2 f_equal. unfold len. lia.
Qed.

(** X12: [update(index, x)] with a negative index other than -1 that
    reaches into the array counts from the end: it replaces the entry at
    [length + index]. *)
Theorem update_negative i x a :
  - len a <= i < -1 ->
  update i x a = <[Z.to_nat (len a + i) := x]> a.
Proof.
  intros Hi. unfold update.
  rewrite slice_prefix_negative, slice_suffix_negative by lia.
  rewrite insert_take_drop by (unfold len in *; lia).
  simpl. do 2 f_equal. f_equal. lia.
Qed.

Lemma update_negative_witness :
  - len [Js.Num 1; Js.Num 2; Js.Num 3] <= -2 < -1 /\
  update (-2) (Js.Num 9) [Js.Num 1; Js.Num 2; Js.Num 3] =
    <[Z.to_nat (len [Js.Num 1; Js.Num 2; Js.Num 3] + -2) := Js.Num 9]>
      [Js.Num 1; Js.Num 2; Js.Num 3].
Proof.
  split; [vm_compute; split; [discriminate | reflexivity]|].
  apply (update_negative (-2) (Js.Num 9) [Js.Num 1; Js.Num 2; Js.Num 3]).
  vm_compute; split; [discriminate | reflexivity].
Defined.

(** X13: [remove(index)] with an index of the array deletes the entry at
    that index; with an index at or beyond the length it changes
    nothing. *)
Theorem remove_by_index i a :
  (0 <= i < len a -> remove i a = delete (Z.to_nat i) a) /\
  (len a <= i -> remove i a = a).
Proof.
  pose proof (len_nonneg a). split; intros Hi.
  - rewrite remove_take_drop by done. by rewrite delete_take_drop.
  - unfold remove. rewrite slice_prefix, slice_suffix by lia.
    unfold len in *. rewrite take_ge, drop_ge by lia. apply app_nil_r.
Qed.

Lemma remove_by_index_witness :
  remove 1 [Js.Num 1; Js.Num 2; Js.Num 3] =
    delete (Z.to_nat 1) [Js.Num 1; Js.Num 2; Js.Num 3] /\
  remove 3 [Js.Num 1; Js.Num 2; Js.Num 3] = [Js.Num 1; Js.Num 2; Js.Num 3].
Proof.
  split.
  - apply (remove_by_index 1 [Js.Num 1; Js.Num 2; Js.Num 3]).
    vm_compute; split; [discriminate | reflexivity].
  - apply (remove_by_index 3 [Js.Num 1; Js.Num 2; Js.Num 3]).
    vm_compute; discriminate.
Defined.

(** X14: [remove(-1)] removes nothing: the result is the array without its
    last entry followed by the whole array, so an array that is not empty
    grows to [2 * length - 1] entries. *)
Theorem remove_minus_one a :
  remove (-1) a = take (length a - 1) a ++ a /\
  (a <> [] -> len (remove (-1) a) = 2 * len a - 1).
Proof.
  assert (Heq : remove (-1) a = take (length a - 1) a ++ a).
  { unfold remove. rewrite slice_prefix_negative by lia.
    replace (-1 + 1) with 0 by lia. rewrite slice_suffix by lia.
    simpl. rewrite drop_0. do 2 f_equal. unfold len. lia. }
  split; [done|]. intros Hne. rewrite Heq. unfold len.
  rewrite length_app, length_take.
  destruct a; [done|]. simpl length. lia.
Qed.

Lemma remove_minus_one_witness :
  remove (-1) [Js.Num 1; Js.Num 2] =
    take (length [Js.Num 1; Js.Num 2] - 1) [Js.Num 1; Js.Num 2]
      ++ [Js.Num 1; Js.Num 2] /\
  len (remove (-1) [Js.Num 1; Js.Num 2]) = 2 * len [Js.Num 1; Js.Num 2] - 1.
Proof.
  destruct (remove_minus_one [Js.Num 1; Js.Num 2]) as [Heq Hlen].
  split; [exact Heq | apply Hlen; discriminate].
Defined.

(** X15: [remove] at the index a [push] has filled gives the array back,
    and [remove] after [update] at the same index of the array is
    [remove]. *)
Theorem remove_after_push_or_update i x a :
  remove (len a) (push x a) = a /\
  (0 <= i < len a -> remove i (update i x a) = remove i a).
Proof.
  pose proof (len_nonneg a). split.
  - rewrite remove_take_drop
      by (unfold push, len; rewrite length_app; simpl; lia).
    unfold push, len. rewrite Nat2Z.id.
    rewrite take_app_length, drop_app_ge by lia.
    replace (S (length a) - length a)%nat with 1%nat by lia.
    simpl. apply app_nil_r.
  - intros Hi. rewrite (update_take_drop i x a) by done.
    set (n := Z.to_nat i).
    assert (Hn : length (take n a) = n).
    { rewrite length_take. unfold len in *. lia. }
    rewrite !remove_take_drop.
    + fold n. rewrite take_app_length' by done.
      rewrite drop_app_ge by lia.
      replace (S n - length (take n a))%nat with 1%nat by lia. done.
    + done.
    + unfold len in *. rewrite length_app, Hn. simpl.
      rewrite length_drop. lia.
Qed.

Lemma remove_after_push_or_update_witness :
  remove (len [Js.Num 1; Js.Num 2]) (push (Js.Num 3) [Js.Num 1; Js.Num 2]) =
    [Js.Num 1; Js.Num 2] /\
  remove 0 (update 0 (Js.Num 3) [Js.Num 1; Js.Num 2]) =
    remove 0 [Js.Num 1; Js.Num 2].
Proof.
  destruct (remove_after_push_or_update 0 (Js.Num 3) [Js.Num 1; Js.Num 2])
    as [Hp Hu].
  split; [exact Hp|]. apply Hu. vm_compute; split; [discriminate | reflexivity].
Defined.

Lemma filter_from_spec (callback : Js.value -> Z -> bool) (k : Z) x a :
  x ∈ filter_from k callback a <->
  exists n : nat, a !! n = Some x /\ callback x (k + Z.of_nat n) = true.
Proof.
  revert k. induction a as [|y a IH]; intros k; simpl.
  - split; [by intros ?%elem_of_nil | by intros (n & ? & _)].
  - assert (Htail :
      (exists n : nat, a !! n = Some x /\
         callback x (k + 1 + Z.of_nat n) = true) <->
      (exists n : nat, (y :: a) !! S n = Some x /\
         callback x (k + Z.of_nat (S n)) = true)).
    { split; intros (n & Hn & Hc); exists n; (split; [done|]);
        by replace (k + 1 + Z.of_nat n) with (k + Z.of_nat (S n)) in * by lia. }
    destruct (callback y k) eqn:Hy.
    + rewrite elem_of_cons, IH, Htail. split.
      * intros [->|(n & Hn & Hc)]; [|by exists (S n)].
        exists O. split; [done|]. by rewrite Z.add_0_r.
      * intros ([|n] & Hn & Hc); [left; by injection Hn|].
        right. by exists n.
    + rewrite IH, Htail. split.
      * intros (n & Hn & Hc). by exists (S n).
      * intros ([|n] & Hn & Hc); [|by exists n].
        injection Hn as ->. rewrite Z.add_0_r in Hc. congruence.
Qed.

Lemma filter_from_indexed (callback : Js.value -> Z -> bool) (m : nat) a :
  filter_from (Z.of_nat m) callback a =
    (base.filter (fun p => callback p.2 (Z.of_nat p.1) = true)
       (zip (seq m (length a)) a)).*2.
Proof.
  revert m. induction a as [|x a IH]; intros m; [done|].
  cbn [filter_from length seq zip zip_with].
  replace (Z.of_nat m + 1) with (Z.of_nat (S m)) by lia. rewrite IH.
  destruct (callback x (Z.of_nat m)) eqn:Hx.
  - by rewrite filter_cons_True by done.
  - rewrite filter_cons_False; [done|]. simpl. by rewrite Hx.
Qed.

(** X16: [filter(callback)] is the array with the entries taken out for
    which the callback, given the entry and its index in the array, does
    not hold: the entries kept are in the order of the array, each
    occurrence once. *)
Theorem filter_keeps (callback : Js.value -> Z -> bool) a :
  filter callback a =
    (base.filter (fun p => callback p.2 (Z.of_nat p.1) = true)
       (zip (seq 0 (length a)) a)).*2.
Proof. unfold filter. apply (filter_from_indexed callback 0). Qed.

End ArrayHook.

(** ** [usePrevious]: the value before the latest change *)

Section PreviousHook.
Import Previous.

Implicit Types (v x : Js.value) (vs : list Js.value).

Lemma renders_snoc v vs x :
  renders v (vs ++ [x]) = render (renders v vs) x.
Proof. unfold renders. by rewrite foldl_snoc. Qed.

Lemma current_after_render (r : refs) x : currentRef (render r x) = x.
Proof.
  unfold render. destruct (Js.strict_eq (currentRef r) x) eqn:Heq; simpl.
  - by apply strict_eq_eq.
  - done.
Qed.

(** The latest value comes first in the reversed list of the values. *)
Lemma reverse_latest v vs :
  exists earlier, reverse (v :: vs) = default v (last vs) :: earlier.
Proof.
  destruct vs as [|y vs _] using rev_ind.
  - by exists [].
  - exists (reverse (v :: vs)).
    by rewrite last_snoc, app_comm_cons, reverse_snoc.
Qed.

Lemma current_after_renders v vs :
  currentRef (renders v vs) = default v (last vs).
Proof.
  destruct vs as [|y vs _] using rev_ind.
  - apply current_after_render.
  - rewrite renders_snoc, last_snoc. apply current_after_render.
Qed.

(** X17: over renders whose values are not [NaN], [usePrevious] returns
    the latest of the values rendered that is not the value of the current
    render, and [undefined] when every render had the same value. *)
Theorem usePrevious_last_other v vs :
  Forall (fun x => x <> Js.NaN) (v :: vs) ->
  usePrevious v vs = last_other (default v (last vs)) (v :: vs).
Proof.
  unfold usePrevious. induction vs as [|x vs IH] using rev_ind; intros Hn.
  - apply Forall_cons in Hn as [Hv _].
    unfold renders, render, last_other, mount.
    cbn [foldl currentRef last default]. rewrite strict_eq_refl by done.
    cbn [negb previousRef]. rewrite reverse_singleton.
    rewrite filter_cons_False by (intros H; by apply H).
    by rewrite filter_nil.
  - rewrite app_comm_cons in Hn. apply Forall_app in Hn as [Hvs Hx].
    apply Forall_cons in Hx as [Hx _]. specialize (IH Hvs).
    rewrite renders_snoc, last_snoc. unfold last_other.
    rewrite app_comm_cons, reverse_snoc.
    change (default v (Some x)) with x.
    rewrite filter_cons_False by (intros H; by apply H).
    pose proof (current_after_renders v vs) as Hc.
    unfold render. destruct (Js.strict_eq _ x) eqn:Heq; simpl.
    + apply strict_eq_eq in Heq. rewrite IH, <- Hc, Heq. done.
    + destruct (reverse_latest v vs) as [earlier Hr].
      rewrite Hr, <- Hc. rewrite filter_cons_True; [done|].
      intros Hsame. rewrite Hsame, strict_eq_refl in Heq; done.
Qed.

Lemma usePrevious_last_other_witness :
  Forall (fun x => x <> Js.NaN) [Js.Num 1; Js.Num 2; Js.Num 3; Js.Num 3] /\
  usePrevious (Js.Num 1) [Js.Num 2; Js.Num 3; Js.Num 3] =
    last_other (default (Js.Num 1) (last [Js.Num 2; Js.Num 3; Js.Num 3]))
      [Js.Num 1; Js.Num 2; Js.Num 3; Js.Num 3].
Proof.
  assert (H : Forall (fun x => x <> Js.NaN)
                [Js.Num 1; Js.Num 2; Js.Num 3; Js.Num 3])
    by (repeat constructor; discriminate).
  split; [exact H|].
  exact (usePrevious_last_other (Js.Num 1) [Js.Num 2; Js.Num 3; Js.Num 3] H).
Defined.

(** X18: a render with [NaN] always counts as a change: it returns the
    value of the render before it, also when that value is [NaN]; and a
    first render with [NaN] returns [NaN], not [undefined]. *)
Theorem usePrevious_nan v vs :
  usePrevious v (vs ++ [Js.NaN]) = default v (last vs) /\
  usePrevious Js.NaN [] = Js.NaN.
Proof.
  split; [|reflexivity]. unfold usePrevious.
  rewrite renders_snoc. unfold render.
  replace (Js.strict_eq (currentRef (renders v vs)) Js.NaN) with false
    by (by destruct (currentRef (renders v vs))).
  simpl. apply current_after_renders.
Qed.

End PreviousHook.

(** ** [useToggle], [useUpdateEffect], [useStateWithValidation] and
    [useCopyToClipboard] *)

Section SmallHooks.
Import Coercion.

(** X19: after [n >= 1] calls of [toggleValue] with arguments that are not
    booleans, the state is a boolean: the truth value of the initial state
    when [n] is even, its negation when [n] is odd. *)
Theorem toggles_parity (values : list Js.value) (state : Js.value) :
  values <> [] ->
  Forall Toggle.not_boolean values ->
  Toggle.toggles values state =
    Js.Bool (if Nat.even (length values) then truthy state
             else negb (truthy state)).
Proof.
  unfold Toggle.toggles.
  induction values as [|x values IH] using rev_ind; intros Hne Hnb; [done|].
  apply Forall_app in Hnb as [Hnb Hx]. apply Forall_cons in Hx as [Hx _].
  rewrite foldl_snoc, length_app, Nat.add_1_r, Nat.even_succ,
    <- Nat.negb_even.
  assert (Ht : forall c, Toggle.toggleValue x c = Js.Bool (negb (truthy c))).
  { intros c. unfold Toggle.toggleValue. destruct x; try done.
    by destruct (Hx b). }
  rewrite Ht. destruct values as [|y values'] eqn:Hv; [done|].
  rewrite IH by done. generalize (Nat.even (length (y :: values'))).
  intros e. simpl. by destruct e, (truthy state).
Qed.

Lemma toggles_parity_witness :
  [Js.Undefined; Js.Ref 7; Js.Undefined] <> [] /\
  Forall Toggle.not_boolean [Js.Undefined; Js.Ref 7; Js.Undefined] /\
  Toggle.toggles [Js.Undefined; Js.Ref 7; Js.Undefined] (Js.Str "on") =
    Js.Bool (if Nat.even (length [Js.Undefined; Js.Ref 7; Js.Undefined])
             then truthy (Js.Str "on") else negb (truthy (Js.Str "on"))).
Proof.
  assert (H : Forall Toggle.not_boolean [Js.Undefined; Js.Ref 7; Js.Undefined])
    by (repeat constructor; intros b; discriminate).
  split; [discriminate|]. split; [exact H|].
  apply (toggles_parity [Js.Undefined; Js.Ref 7; Js.Undefined] (Js.Str "on"));
    [discriminate | exact H].
Defined.

(** X20: the callback of [useUpdateEffect] is called at every run of the
    effect but the first: after [n] runs it has been called [n - 1] times,
    and the ref is [true] only before the first run. *)
Theorem update_effect_skips_first (n : nat) :
  UpdateEffect.runs n = (bool_decide (n = O), Nat.pred n).
Proof.
  induction n as [|n IH]; [done|]. simpl. rewrite IH.
  unfold UpdateEffect.effect. by destruct n.
Qed.

Lemma changes_snoc (stable : bool) (validationFunc : Js.value -> Js.value)
    (nextStates : list History.arg) (nextState : History.arg)
    (h : Validation.hook) :
  Validation.changes stable validationFunc (nextStates ++ [nextState]) h =
  Validation.onChange stable validationFunc
    (Validation.changes stable validationFunc nextStates h) nextState.
Proof. unfold Validation.changes. by rewrite foldl_snoc. Qed.

(** With a stable validation function the closure of [onChange] holds the
    initial state for ever. *)
Lemma closure_state_stable (validationFunc : Js.value -> Js.value)
    (initialValue : Js.value) (nextStates : list History.arg) :
  Validation.closure_state
    (Validation.changes true validationFunc nextStates
       (Validation.useStateWithValidation validationFunc initialValue)) =
  initialValue.
Proof.
  induction nextStates as [|a nextStates IH] using rev_ind; [done|].
  by rewrite changes_snoc.
Qed.

(** With a validation function made anew at every render the closure holds
    the latest state. *)
Lemma closure_state_fresh (validationFunc : Js.value -> Js.value)
    (initialValue : Js.value) (nextStates : list History.arg) :
  Validation.closure_state
    (Validation.changes false validationFunc nextStates
       (Validation.useStateWithValidation validationFunc initialValue)) =
  Validation.state
    (Validation.changes false validationFunc nextStates
       (Validation.useStateWithValidation validationFunc initialValue)).
Proof.
  destruct nextStates as [|a nextStates _] using rev_ind; [done|].
  by rewrite changes_snoc.
Qed.

(** X21: [isValid] is always the verdict of the validation function on the
    current [state]: at the first render and after every sequence of
    [onChange] calls. *)
Theorem isValid_follows_state (stable : bool)
    (validationFunc : Js.value -> Js.value) (initialValue : Js.value)
    (nextStates : list History.arg) :
  Validation.isValid
    (Validation.changes stable validationFunc nextStates
       (Validation.useStateWithValidation validationFunc initialValue)) =
  validationFunc
    (Validation.state
       (Validation.changes stable validationFunc nextStates
          (Validation.useStateWithValidation validationFunc initialValue))).
Proof.
  destruct nextStates as [|a nextStates _] using rev_ind; [done|].
  by rewrite changes_snoc.
Qed.

(** X22: when the caller hands the same validation function at every
    render, an updater given to [onChange] is applied to the initial value,
    not to the current state: whatever calls came before, the state becomes
    [f initialValue]. *)
Theorem onChange_updater_sees_initial_value
    (validationFunc : Js.value -> Js.value) (initialValue : Js.value)
    (nextStates : list History.arg) (f : Js.value -> Js.value) :
  Validation.state
    (Validation.changes true validationFunc
       (nextStates ++ [History.Updater f])
       (Validation.useStateWithValidation validationFunc initialValue)) =
  f initialValue.
Proof.
  rewrite changes_snoc. simpl. by rewrite closure_state_stable.
Qed.

(** X23: when the caller hands a new validation function at every render,
    the calls of [onChange] compose: the state is the initial value with
    every literal and updater applied in order. *)
Theorem onChange_fresh_composes
    (validationFunc : Js.value -> Js.value) (initialValue : Js.value)
    (nextStates : list History.arg) :
  Validation.state
    (Validation.changes false validationFunc nextStates
       (Validation.useStateWithValidation validationFunc initialValue)) =
  foldl (fun current nextState => Validation.apply_arg nextState current)
    initialValue nextStates.
Proof.
  induction nextStates as [|a nextStates IH] using rev_ind; [done|].
  rewrite changes_snoc, foldl_snoc, <- IH. simpl.
  destruct a; simpl; [done|]. by rewrite closure_state_fresh.
Qed.

Lemma copies_snoc (calls : list (Js.value * bool)) (call : Js.value * bool) :
  Clipboard.copies (calls ++ [call]) =
  Clipboard.copyToClipboard (Clipboard.copies calls) call.
Proof. unfold Clipboard.copies. by rewrite foldl_snoc. Qed.

(** X24: after any calls of [copyToClipboard], [value] is the text of the
    latest call whose copy succeeded ([undefined] when none did), and
    [success] is the result of the latest call ([undefined] before the
    first). *)
Theorem clipboard_value_is_last_copied (calls : list (Js.value * bool)) :
  Clipboard.value (Clipboard.copies calls) = Clipboard.last_copied calls /\
  Clipboard.success (Clipboard.copies calls) =
    default Js.Undefined (Js.Bool ∘ snd <$> last calls).
Proof.
  induction calls as [|[text result] calls [IHv IHs]] using rev_ind;
    [done|].
  rewrite copies_snoc, last_snoc. split; [|done].
  unfold Clipboard.last_copied. rewrite reverse_snoc. simpl.
  destruct result.
  - by rewrite filter_cons_True.
  - by rewrite filter_cons_False, IHv.
Qed.

End SmallHooks.

(** ** [useTranslation]: nested keys and fallbacks *)

Section TranslationHook.
Import Coercion Translation.

Implicit Types (w : world) (key language : string) (keys : list string).

Lemma split_dot_nonempty key : split_dot key <> [].
Proof.
  destruct key as [|c rest]; simpl; [done|].
  destruct (bool_decide (c = "."%char)); [done|].
  by destruct (split_dot rest).
Qed.

(** Splitting at the dots loses nothing. *)
Lemma join_split_dot key : join_dot (split_dot key) = key.
Proof.
  induction key as [|c rest IH]; simpl; [done|].
  destruct (bool_decide (c = "."%char)) eqn:Hc.
  - apply bool_decide_eq_true in Hc as ->.
    pose proof (split_dot_nonempty rest) as Hne.
    destruct (split_dot rest) as [|k ks] eqn:Hs; [done|].
    simpl in *. by rewrite IH.
  - destruct (split_dot rest) as [|k ks] eqn:Hs.
    + by destruct (split_dot_nonempty rest).
    + destruct ks as [|k' ks']; simpl in *; by rewrite <- IH.
Qed.

Lemma member_nullish w (obj : Js.value) key :
  nullish obj = true -> member w obj key = Js.Undefined.
Proof. by destruct obj. Qed.

(** Once the walk has met [null] or [undefined], it stays at
    [undefined]. *)
Lemma walk_nullish w (obj : Js.value) keys :
  nullish obj = true -> keys <> [] ->
  foldl (member w) obj keys = Js.Undefined.
Proof.
  intros Hn Hk. destruct keys as [|k keys]; [done|]. simpl.
  rewrite member_nullish by done. clear.
  induction keys as [|k' keys IH]; [done|]. simpl. exact IH.
Qed.

(** X25: a path that goes on after an entry that is missing or [null]
    leads to [undefined]: the walk does not stop with an error, and does
    not return the [null] it met. *)
Theorem getNestedTranslation_through_missing w language
    (keys more : list string) :
  nullish (getNestedTranslation w language keys) = true ->
  more <> [] ->
  getNestedTranslation w language (keys ++ more) = Js.Undefined.
Proof.
  intros Hn Hm. unfold getNestedTranslation in *. rewrite foldl_app.
  by apply walk_nullish.
Qed.

Lemma getNestedTranslation_through_missing_witness :
  nullish
    (getNestedTranslation
       (World ∅ (fun _ _ => Js.Undefined) (fun _ => Js.Null)) "en" []) = true /\
  ["a"; "b"] <> [] /\
  getNestedTranslation
    (World ∅ (fun _ _ => Js.Undefined) (fun _ => Js.Null)) "en"
    ([] ++ ["a"; "b"]) = Js.Undefined.
Proof.
  split; [reflexivity|]. split; [discriminate|].
  apply (getNestedTranslation_through_missing
           (World ∅ (fun _ _ => Js.Undefined) (fun _ => Js.Null)) "en"
           [] ["a"; "b"]); [reflexivity | discriminate].
Defined.

(** X26: when [./translations] has neither the language nor the fallback
    language, [translate(key)] is [key], for every key. *)
Theorem translate_unknown_languages w language (fallbackLanguage key : string) :
  nullish (translations w language) = true ->
  nullish (translations w fallbackLanguage) = true ->
  translate w language fallbackLanguage key = Js.Str key.
Proof.
  intros Hl Hf. unfold translate, getNestedTranslation.
  pose proof (split_dot_nonempty key).
  by rewrite !walk_nullish.
Qed.

Lemma translate_unknown_languages_witness :
  nullish (translations
             (World ∅ (fun _ _ => Js.Undefined) (fun _ => Js.Undefined))
             "fr") = true /\
  nullish (translations
             (World ∅ (fun _ _ => Js.Undefined) (fun _ => Js.Undefined))
             "en") = true /\
  translate (World ∅ (fun _ _ => Js.Undefined) (fun _ => Js.Undefined))
    "fr" "en" "menu.title" = Js.Str "menu.title".
Proof.
  split; [reflexivity|]. split; [reflexivity|].
  apply (translate_unknown_languages
           (World ∅ (fun _ _ => Js.Undefined) (fun _ => Js.Undefined))
           "fr" "en" "menu.title"); reflexivity.
Defined.

(** X27: [translate(key)] is never [null] or [undefined], whatever the
    translations hold. *)
Theorem translate_never_nullish w language (fallbackLanguage key : string) :
  nullish (translate w language fallbackLanguage key) = false.
Proof.
  unfold translate, coalesce.
  destruct (nullish (getNestedTranslation w language (split_dot key)))
    eqn:Hl; [|by rewrite Hl].
  destruct (nullish (getNestedTranslation w fallbackLanguage (split_dot key)))
    eqn:Hf; [done | by rewrite Hf].
Qed.

End TranslationHook.

(** ** [useDebugInformation]: the props reported as changed *)

Section DebugHook.
Import DebugInformation.

Implicit Types (props previous : gmap string Js.value) (key : string).

Lemma record_changes_lookup props previous (keys : list string)
    (obj : gmap string (Js.value * Js.value)) key :
  foldl (record_change props previous) obj keys !! key =
    if decide (key ∈ keys) then
      if Js.strict_eq (prop props key) (prop previous key) then obj !! key
      else Some (prop previous key, prop props key)
    else obj !! key.
Proof.
  revert obj. induction keys as [|k keys IH]; intros obj.
  - by rewrite decide_False by apply not_elem_of_nil.
  - cbn [foldl]. rewrite IH. unfold record_change.
    destruct (decide (key ∈ keys)) as [Hin|Hout].
    + rewrite decide_True by (by right).
      destruct (Js.strict_eq (prop props key) (prop previous key)) eqn:Hkey;
        [|done].
      destruct (Js.strict_eq (prop props k) (prop previous k)) eqn:Hk; [done|].
      destruct (decide (k = key)) as [->|Hne]; [congruence|].
      by rewrite lookup_insert_ne.
    + destruct (decide (k = key)) as [->|Hne].
      * rewrite decide_True by (by left).
        destruct (Js.strict_eq (prop props key) (prop previous key));
          [done | by rewrite lookup_insert_eq].
      * rewrite decide_False by (by intros [?|?]%elem_of_cons).
        destruct (Js.strict_eq (prop props k) (prop previous k)); [done|].
        by rewrite lookup_insert_ne.
Qed.

Lemma elem_of_propKeys props key :
  key ∈ propKeys props <-> is_Some (props !! key) \/ key = "current"%string.
Proof.
  unfold propKeys. rewrite elem_of_elements, elem_of_union, elem_of_dom.
  by rewrite elem_of_singleton.
Qed.

(** X28: [changedProps] has an entry for [key] exactly when [key] is a
    property of the current props, or is ["current"], and the current and
    previous values differ ([!==]); the entry holds the previous and the
    current value. *)
Theorem changedProps_reports props previous key (was now : Js.value) :
  changedProps props previous !! key = Some (was, now) <->
  (is_Some (props !! key) \/ key = "current"%string) /\
  Js.strict_eq (prop props key) (prop previous key) = false /\
  was = prop previous key /\ now = prop props key.
Proof.
  unfold changedProps. rewrite record_changes_lookup, lookup_empty.
  destruct (decide (key ∈ propKeys props)) as [Hin|Hout].
  - apply elem_of_propKeys in Hin.
    destruct (Js.strict_eq (prop props key) (prop previous key)).
    + split; [done | by intros (_ & ? & _)].
    + split; [by intros [= <- <-] | by intros (_ & _ & -> & ->)].
  - rewrite elem_of_propKeys in Hout. split; [done | by intros (? & _)].
Qed.

(** X29: a property the previous props had and the current props have not
    is not reported, unless it is named ["current"]: a removed prop goes
    unnoticed. *)
Theorem changedProps_misses_removed props previous key (v : Js.value) :
  previous !! key = Some v -> props !! key = None ->
  key <> "current"%string ->
  changedProps props previous !! key = None.
Proof.
  intros _ Hp Hc. unfold changedProps.
  rewrite record_changes_lookup, lookup_empty.
  rewrite decide_False; [done|]. rewrite elem_of_propKeys, Hp.
  by intros [[? ?]|?].
Qed.

Lemma changedProps_misses_removed_witness :
  ({[ "a"%string := Js.Num 1; "b"%string := Js.Num 2 ]}
     : gmap string Js.value) !! "b"%string = Some (Js.Num 2) /\
  ({[ "a"%string := Js.Num 1 ]} : gmap string Js.value) !! "b"%string = None /\
  "b"%string <> "current"%string /\
  changedProps {[ "a"%string := Js.Num 1 ]}
    {[ "a"%string := Js.Num 1; "b"%string := Js.Num 2 ]} !! "b"%string = None.
Proof.
  split; [by vm_compute|]. split; [by vm_compute|]. split; [discriminate|].
  apply (changedProps_misses_removed {[ "a"%string := Js.Num 1 ]}
           {[ "a"%string := Js.Num 1; "b"%string := Js.Num 2 ]}
           "b"%string (Js.Num 2));
    [by vm_compute | by vm_compute | discriminate].
Defined.

(** X30: when the props are the previous props (as at the first render),
    the properties reported as changed are exactly those whose value is
    [NaN]. *)
Theorem changedProps_same_props props key :
  is_Some (changedProps props props !! key) <-> props !! key = Some Js.NaN.
Proof.
  unfold changedProps. rewrite record_changes_lookup, lookup_empty.
  assert (Hd : forall v, Js.strict_eq v v = false <-> v = Js.NaN).
  { intros v. split; [|by intros ->]. destruct v; simpl; try done.
    - by rewrite bool_decide_eq_false.
    - by rewrite Z.eqb_refl.
    - by rewrite bool_decide_eq_false.
    - by rewrite bool_decide_eq_false. }
  destruct (decide (key ∈ propKeys props)) as [Hin|Hout].
  - apply elem_of_propKeys in Hin.
    destruct (Js.strict_eq (prop props key) (prop props key)) eqn:Heq.
    + split; [by intros [? ?]|]. intros Hn. unfold prop in Heq.
      by rewrite Hn in Heq.
    + apply Hd in Heq. unfold prop in Heq. split; [intros _|by eexists].
      destruct (props !! key) as [v|]; simpl in Heq; by subst.
  - rewrite elem_of_propKeys in Hout. split; [by intros [? ?]|].
    intros Hn. destruct Hout. left. by rewrite Hn.
Qed.

End DebugHook.
